(** * Burst-to-ARD pipeline orchestrator (ost/s1/burst_to_ard.py)

    A shallow embedding of [burst_to_ard] and of the SNAP wrappers it calls,
    over an explicit world made of the file system and of the list of
    engine invocations made so far.  The external engine (SNAP's gpt) is an
    oracle: it maps a command and the current file system to an exit code
    and to what it wrote. *)

From Stdlib Require Import ZArith Ascii.
From stdpp Require Import base gmap strings list fin_maps.

(** ** Paths and the file system *)

(** A path is a directory and the name of an entry in it.
    [os.path.join(d, n)] puts a separator between [d] and [n] unless [d]
    ends with one, so that ['tmp'] and ['tmp/'] are the same directory: the
    directory of a path is kept with its separator.  The names that are
    joined to a directory here are a burst id followed by a literal
    suffix. *)
Definition path : Type := string * string.

Fixpoint as_dir (d : string) : string :=
  match d with
  | EmptyString => EmptyString
  | String c EmptyString => if Ascii.eqb c "/" then d else String c "/"
  | String c d' => String c (as_dir d')
  end.

Definition opj (d n : string) : path := (as_dir d, n).

(** The directory [d] is [d0] or lies below it. *)
Definition dir_under (d0 d : string) : bool :=
  String.prefix (as_dir d0) (as_dir d).

(** ['{}.dim'.format(p)] and the payload directory ['{}.data'] that goes with
    it in the BEAM-Dimap format. *)
Definition dim (p : path) : path := (p.1, p.2 +:+ ".dim").
Definition data (p : path) : path := (p.1, p.2 +:+ ".data").

(** What is stored under a path: a regular file (a [.dim] descriptor, a log,
    the marker), a payload directory, whose rasters have computable
    statistics or not, or an entry that cannot be removed or replaced (one
    without the permission, or in use). *)
Inductive node : Type :=
  | RegularFile
  | PayloadDir (has_stats : bool)
  | Locked.

Abbreviation filesystem := (gmap path node).

(** The entries of directory [d], at any depth. *)
Definition ls (d : string) (f : filesystem) : list path :=
  omap (λ kv : path * node, if dir_under d kv.1.1 then Some kv.1 else None)
       (map_to_list f).

(** The entry under [k] is locked. *)
Definition is_locked (f : filesystem) (k : path) : bool :=
  match f !! k with Some Locked => true | _ => false end.

(** Some entry of directory [d], at any depth, is locked. *)
Definition locked_under (d : string) (f : filesystem) : bool :=
  existsb (λ kv : path * node,
             dir_under d kv.1.1 && match kv.2 with Locked => true | _ => false end)
          (map_to_list f).

(** The file system without the entries of directory [d], at any depth. *)
Definition purge (d : string) (f : filesystem) : filesystem :=
  filter (λ kv : path * node, dir_under d kv.1.1 = false) f.

Definition path_exists (p : path) (f : filesystem) : bool :=
  match f !! p with Some _ => true | None => false end.

(** A Dimap product is present when its descriptor and its payload are. *)
Definition dimap_exists (p : path) (f : filesystem) : bool :=
  path_exists (dim p) f && path_exists (data p) f.

(** ** The processing parameters *)

Record dem_dict : Type := {
  dem_name : string;
  dem_file : string;
  dem_nodata : string;
  dem_resampling : string;
  image_resampling : string
}.

(** [ard_params['single ARD']] of the processing file. *)
Record ard_params : Type := {
  polarisation : string;
  H_A_Alpha : bool;
  remove_pol_speckle : bool;
  product_type : string;
  remove_speckle : bool;
  to_db : bool;
  create_ls_mask : bool;
  resolution : Z;
  dem : dem_dict;
  coherence_bands : string
}.

(** The arguments of [burst_to_ard], as its docstring types them; [ard]
    stands for the parsed content of [proc_file], a file that can be read
    and has every key that the code reads.  The argument [slave_file] has
    the default [None]: the functions [coherence_branch_of], [stages_of]
    and [burst_to_ard_of] below take the value it is given, string or
    not. *)
Record burst_args : Type := {
  master_file : string;
  swath : string;
  master_burst_nr : string;
  master_burst_id : string;
  ard : ard_params;
  out_dir : string;
  temp_dir : string;
  slave_file : string;
  slave_burst_nr : string;
  slave_burst_id : string;
  coherence : bool;
  remove_slave_import : bool
}.

(** ** Python values

    An argument that the caller may leave out holds a string or its
    default, the object [None] or [False]. *)

Inductive py_value : Type :=
  | PyStr (s : string)
  | PyNone
  | PyFalse.

(** ['{}'.format(v)] *)
Definition py_format (v : py_value) : string :=
  match v with
  | PyStr s => s
  | PyNone => "None"
  | PyFalse => "False"
  end.

(** [if v:], the truth value of [v]: a string is true unless it is empty. *)
Definition py_truth (v : py_value) : bool :=
  match v with
  | PyStr EmptyString => false
  | PyStr _ => true
  | PyNone => false
  | PyFalse => false
  end.

(** [v is True]: no string and no default of the parser is the object
    [True]. *)
Definition py_is_True (v : py_value) : bool :=
  match v with
  | PyStr _ => false
  | PyNone => false
  | PyFalse => false
  end.

(** [s.replace(' ', '')] *)
Fixpoint remove_spaces (s : string) : string :=
  match s with
  | EmptyString => EmptyString
  | String c s' =>
      if Ascii.eqb c " "%char then remove_spaces s' else String c (remove_spaces s')
  end.

(** ** The engine *)

(** The three calibration graphs. *)
Inductive cal_graph : Type := Calbeta | CalGamma | CalSigma.

(** The gpt command lines the wrappers build, one constructor per graph or
    operator, with the values substituted into the command string. *)
Inductive command : Type :=
  | BurstSplit (infile polar swath burst : string) (out_prefix : path)
  | Halpha (pol_speckle_filter : bool) (infile outfile : path)
  | Calibrate (graph : cal_graph) (infile outfile : path)
  | TerrainFlattening (d : dem_dict) (infile outfile : path)
  | SpeckleFilter (infile outfile : path)
  | LinearToFromdB (infile outfile : path)
  | LSMask (infile : path) (res : Z) (d : dem_dict) (outfile : path)
  | Coreg (master slave : path) (d : dem_dict) (outfile : path)
  | CoherenceEst (infile : path) (polar : string) (outfile : path)
  | TerrainCorrection (infile : path) (res : Z) (d : dem_dict) (outfile : path).

Definition cmd_output (c : command) : path :=
  match c with
  | BurstSplit _ _ _ _ o | Halpha _ _ o | Calibrate _ _ o
  | TerrainFlattening _ _ o | SpeckleFilter _ o | LinearToFromdB _ o
  | LSMask _ _ _ o | Coreg _ _ _ o | CoherenceEst _ _ o
  | TerrainCorrection _ _ _ o => o
  end.

(** What one engine process did: its exit status and which parts of its
    output product it wrote. *)
Record gpt_result : Type := {
  exit_code : Z;
  writes_dim : bool;
  writes_data : option bool
}.

Definition write_product (out : path) (r : gpt_result) (f : filesystem) : filesystem :=
  let f1 := if writes_dim r then <[dim out := RegularFile]> f else f in
  match writes_data r with
  | Some s => <[data out := PayloadDir s]> f1
  | None => f1
  end.

(** ** The world and the monad of function bodies *)

Record event : Type := {
  ev_command : command;
  ev_logfile : path;
  ev_return_code : Z
}.

Record World : Type := { fs : filesystem; trace : list event }.

(** The exceptions that are raised here and that nothing catches: the
    failure of an operation on the file system, and a value of the wrong
    type. *)
Inductive exn : Type := IoError | TypeError.

(** What ends a function without a [return]: [sys.exit(code)], which raises
    [SystemExit], or another exception. *)
Inductive abort : Type :=
  | SysExit (code : Z)
  | Error (e : exn).

(** A statement either falls through with a value, or executes [return rc],
    or is left by [sys.exit(code)] or by an exception. *)
Inductive res (A : Type) : Type :=
  | Val (a : A)
  | Ret (rc : Z)
  | Abort (x : abort).
Arguments Val {A} a.
Arguments Ret {A} rc.
Arguments Abort {A} x.

Abbreviation Exit code := (Abort (SysExit code)).
Abbreviation Raise e := (Abort (Error e)).

Definition M (A : Type) : Type := World → res A * World.

Definition ret {A} (a : A) : M A := λ w, (Val a, w).

Definition bind {A B} (m : M A) (k : A → M B) : M B := λ w,
  match m w with
  | (Val a, w') => k a w'
  | (Ret rc, w') => (Ret rc, w')
  | (Abort x, w') => (Abort x, w')
  end.

Notation "x <- m ;; k" := (bind m (λ x, k))
  (at level 20, m at level 99, k at level 200, only parsing).
Notation "' p <- m ;; k" := (bind m (λ x, match x with p => k end))
  (at level 20, p pattern, m at level 99, k at level 200, only parsing).
Notation "m ;; k" := (bind m (λ _, k))
  (at level 100, k at level 200, only parsing, right associativity).

(** [return rc] *)
Definition return_ {A} (rc : Z) : M A := λ w, (Ret rc, w).

(** [sys.exit(code)] *)
Definition sys_exit {A} (code : Z) : M A := λ w, (Exit code, w).

(** An exception *)
Definition raise {A} (e : exn) : M A := λ w, (Raise e, w).

(** Calling a function: its [return rc] is the value of the call. *)
Definition call (body : M Empty_set) : M Z := λ w,
  match body w with
  | (Val e, _) => match e with end
  | (Ret rc, w') => (Val rc, w')
  | (Abort x, w') => (Abort x, w')
  end.

Definition get_fs : M filesystem := λ w, (Val (fs w), w).
Definition modify_fs (g : filesystem → filesystem) : M unit := λ w,
  (Val tt, {| fs := g (fs w); trace := trace w |}).

(** An operation of the helpers on the file system: it fails with an
    [IoError], and changes nothing, when the file system blocks it. *)
Definition io_op (blocked : filesystem → bool) (g : filesystem → filesystem)
    : M unit := λ w,
  if blocked (fs w) then (Raise IoError, w)
  else (Val tt, {| fs := g (fs w); trace := trace w |}).

(** [os.path.exists(p)] *)
Definition os_path_exists (p : path) : M bool :=
  f <- get_fs;; ret (path_exists p f).

(** How a call of a function ends: it returns, or it is left by
    [sys.exit] or by an exception, which nothing here catches. *)
Inductive outcome : Type :=
  | Returned (rc : Z)
  | Ended (x : abort).

Abbreviation Exited code := (Ended (SysExit code)).
Abbreviation Raised e := (Ended (Error e)).

Definition exec (body : M Empty_set) (w : World) : outcome * World :=
  match body w with
  | (Val e, _) => match e with end
  | (Ret rc, w') => (Returned rc, w')
  | (Abort x, w') => (Ended x, w')
  end.

Section Pipeline.

(** The engine, and the nonzero code [check_out_dimap] answers with for a
    product that fails the check. *)
Variable gpt : command → filesystem → gpt_result.
Variable integrity_error : positive.

(** ** The helpers of [ost.helpers.helpers] *)

(** Modelled from the spec: [h.run_command] is not in the sources.  The
    Stage Executor runs the engine synchronously, redirects its
    diagnostic stream to the log destination (one log per invocation,
    written regardless of outcome) and hands back the raw exit status;
    the engine writes its output product as a side effect. *)
Definition run_command (c : command) (logfile : path) : M Z := λ w,
  let r := gpt c (fs w) in
  (Val (exit_code r),
   {| fs := write_product (cmd_output c) r (<[logfile := RegularFile]> (fs w));
      trace := trace w ++ [{| ev_command := c; ev_logfile := logfile;
                              ev_return_code := exit_code r |}] |}).

Definition verify_dimap (p : path) (test_stats : bool) (f : filesystem) : bool :=
  path_exists (dim p) f &&
  match f !! data p with
  | Some (PayloadDir has_stats) => negb test_stats || has_stats
  | _ => false
  end.

(** Modelled from the spec: [h.check_out_dimap] is not in the sources.
    [verify] confirms that the metadata and payload pair is present and,
    when statistics are required, that the payload has computable summary
    statistics; the result is 0 or a nonzero error code. *)
Definition check_out_dimap (p : path) (test_stats : bool) : M Z :=
  f <- get_fs;;
  ret (if verify_dimap p test_stats f then 0%Z else Z.pos integrity_error).

Definition move_entry (src dst : path) (f : filesystem) : filesystem :=
  match f !! src with
  | Some n => <[dst := n]> (delete src f)
  | None => f
  end.

(** Modelled from the spec: [h.move_dimap] is not in the sources.
    [moveToFinal] relocates the metadata and payload pair of a product;
    it can fail with an [IoError], which for a Python helper is an
    exception: here, when an entry it has to remove or to replace is
    locked. *)
Definition move_dimap (src dst : path) : M unit :=
  io_op (λ f, is_locked f (dim src) || is_locked f (data src) ||
              is_locked f (dim dst) || is_locked f (data dst))
        (λ f, move_entry (data src) (data dst)
                (move_entry (dim src) (dim dst) f)).

(** Modelled from the spec: [h.delete_dimap] is not in the sources.
    [delete] removes the pair; deleting what does not exist is no error,
    an entry that cannot be removed is an [IoError]. *)
Definition delete_dimap (p : path) : M unit :=
  io_op (λ f, is_locked f (dim p) || is_locked f (data p))
        (λ f, delete (data p) (delete (dim p) f)).

(** Modelled from the spec: [h.remove_folder_content] is not in the
    sources.  [purge] recursively clears all contents of a directory; an
    entry that cannot be removed is an [IoError]. *)
Definition remove_folder_content (d : string) : M unit :=
  io_op (locked_under d) (purge d).

(** [with open(p, 'w') as file: file.write(...)] *)
Definition write_file (p : path) : M unit :=
  modify_fs (<[p := RegularFile]>).

(** ** The SNAP wrappers

    Each builds its command, runs it and returns the return code; the
    messages printed in between have no effect on the world. *)

(** The message that [_import] prints first has
    [os.path.basename(infile)], which raises a [TypeError] for an
    [infile] that is not a string. *)
Definition _import (infile : py_value) (out_prefix logfile : path)
    (swath burst polar : string) : M Empty_set :=
  match infile with
  | PyStr infile =>
      return_code <- run_command
                       (BurstSplit infile polar swath burst out_prefix)
                       logfile;;
      return_ return_code
  | PyNone | PyFalse => raise TypeError
  end.

Definition _ha_alpha (infile outfile logfile : path)
    (pol_speckle_filter : bool) : M Empty_set :=
  return_code <- run_command (Halpha pol_speckle_filter infile outfile)
                             logfile;;
  return_ return_code.

Definition _calibration (infile outfile logfile : path)
    (product_type : string) : M Empty_set :=
  graph <- (if String.eqb product_type "RTC" then ret Calbeta
            else if String.eqb product_type "GTCgamma" then ret CalGamma
            else if String.eqb product_type "GTCsigma" then ret CalSigma
            else sys_exit 121);;
  return_code <- run_command (Calibrate graph infile outfile) logfile;;
  return_ return_code.

Definition _terrain_flattening (infile outfile logfile : path)
    (dem_dict : dem_dict) : M Empty_set :=
  return_code <- run_command (TerrainFlattening dem_dict infile outfile)
                             logfile;;
  return_ return_code.

Definition _speckle_filter (infile outfile logfile : path) : M Empty_set :=
  return_code <- run_command (SpeckleFilter infile outfile) logfile;;
  return_ return_code.

Definition _linear_to_db (infile outfile logfile : path) : M Empty_set :=
  return_code <- run_command (LinearToFromdB infile outfile) logfile;;
  return_ return_code.

Definition _ls_mask (infile outfile logfile : path) (resolution : Z)
    (dem_dict : dem_dict) : M Empty_set :=
  return_code <- run_command (LSMask infile resolution dem_dict outfile)
                             logfile;;
  return_ return_code.

Definition _coreg2 (master slave outfile logfile : path)
    (dem_dict : dem_dict) : M Empty_set :=
  return_code <- run_command (Coreg master slave dem_dict outfile) logfile;;
  return_ return_code.

Definition _coherence (infile outfile logfile : path) (polar : string)
    : M Empty_set :=
  return_code <- run_command (CoherenceEst infile polar outfile) logfile;;
  return_ return_code.

Definition _terrain_correction (infile outfile logfile : path)
    (resolution : Z) (dem_dict : dem_dict) : M Empty_set :=
  return_code <- run_command
                   (TerrainCorrection infile resolution dem_dict outfile)
                   logfile;;
  return_ return_code.

(** ** [burst_to_ard], block by block *)

(** [if return_code != 0: h.remove_folder_content(temp_dir);
    return return_code] *)
Definition abort_if_failed (temp_dir : string) (return_code : Z) : M unit :=
  if negb (return_code =? 0)%Z then
    remove_folder_content temp_dir;;
    return_ return_code
  else ret tt.

Section Body.

Variable a : burst_args.

Definition master_import : path :=
  opj (temp_dir a) (master_burst_id a +:+ "_import").
Definition slave_import : path :=
  opj (temp_dir a) (slave_burst_id a +:+ "_import").
Definition check_file : path := opj (out_dir a) ".processed".

(** import master *)
Definition import_master : M unit :=
  present <- os_path_exists (dim master_import);;
  if negb present then
    let import_log :=
      opj (out_dir a) (master_burst_id a +:+ "_import.err_log") in
    let polars := remove_spaces (polarisation (ard a)) in
    return_code <- call (_import (PyStr (master_file a)) master_import
                                 import_log
                                 (swath a) (master_burst_nr a) polars);;
    abort_if_failed (temp_dir a) return_code
  else ret tt.

(** [if ard['H-A-Alpha']:] create the HAalpha file, geocode it, check it
    and move it to its final destination *)
Definition ha_alpha_branch : M unit :=
  if H_A_Alpha (ard a) then
    let out_haa := opj (temp_dir a) (master_burst_id a +:+ "_h") in
    let haa_log := opj (out_dir a) (master_burst_id a +:+ "_haa.err_log") in
    return_code <- call (_ha_alpha (dim master_import) out_haa haa_log
                                   (remove_pol_speckle (ard a)));;
    abort_if_failed (temp_dir a) return_code;;
    let out_htc := opj (temp_dir a) (master_burst_id a +:+ "_pol") in
    let haa_tc_log :=
      opj (out_dir a) (master_burst_id a +:+ "_haa_tc.err_log") in
    return_code <- call (_terrain_correction (dim out_haa) out_htc
                           haa_tc_log (resolution (ard a)) (dem (ard a)));;
    return_code <- check_out_dimap out_htc true;;
    abort_if_failed (temp_dir a) return_code;;
    move_dimap out_htc (opj (out_dir a) (master_burst_id a +:+ "_pol"));;
    delete_dimap out_haa
  else ret tt.

(** calibrate; the value is [(return_code, out_cal)] *)
Definition calibrate : M (Z * path) :=
  let out_cal := opj (temp_dir a) (master_burst_id a +:+ "_cal") in
  let cal_log := opj (out_dir a) (master_burst_id a +:+ "_cal.err_log") in
  return_code <- call (_calibration (dim master_import) out_cal cal_log
                                    (product_type (ard a)));;
  abort_if_failed (temp_dir a) return_code;;
  (if negb (coherence a) then delete_dimap master_import else ret tt);;
  ret (return_code, out_cal).

(** speckle filtering *)
Definition speckle_filtering (return_code : Z) (out_cal : path)
    : M (Z * path) :=
  if remove_speckle (ard a) then
    let speckle_import :=
      opj (temp_dir a) (master_burst_id a +:+ "_speckle_import") in
    let speckle_log :=
      opj (out_dir a) (master_burst_id a +:+ "_speckle.err_log") in
    return_code <- call (_speckle_filter (dim out_cal) speckle_import
                                         speckle_log);;
    abort_if_failed (temp_dir a) return_code;;
    delete_dimap out_cal;;
    ret (return_code, speckle_import)
  else ret (return_code, out_cal).

(** do terrain flattening in case it is selected *)
Definition terrain_flattening (return_code : Z) (out_cal : path)
    : M (Z * path) :=
  if String.eqb (product_type (ard a)) "RTC" then
    let out_rtc := opj (temp_dir a) (master_burst_id a +:+ "_rtc") in
    let rtc_log := opj (out_dir a) (master_burst_id a +:+ "_rtc.err_log") in
    return_code <- call (_terrain_flattening (dim out_cal) out_rtc rtc_log
                                             (dem (ard a)));;
    abort_if_failed (temp_dir a) return_code;;
    delete_dimap out_cal;;
    ret (return_code, out_rtc)
  else ret (return_code, out_cal).

(** [if ard['to db']:] *)
Definition linear_to_db (return_code : Z) (out_cal : path)
    : M (Z * path) :=
  if to_db (ard a) then
    let out_db := opj (temp_dir a) (master_burst_id a +:+ "_cal_db") in
    let db_log :=
      opj (out_dir a) (master_burst_id a +:+ "_cal_db.err_log") in
    return_code <- call (_linear_to_db (dim out_cal) out_db db_log);;
    abort_if_failed (temp_dir a) return_code;;
    delete_dimap out_cal;;
    ret (return_code, out_db)
  else ret (return_code, out_cal).

(** geo code backscatter products, last check, move to final
    destination *)
Definition geocode_backscatter (out_cal : path) : M Z :=
  let out_tc := opj (temp_dir a) (master_burst_id a +:+ "_bs") in
  let tc_log := opj (out_dir a) (master_burst_id a +:+ "_bs_tc.err_log") in
  return_code <- call (_terrain_correction (dim out_cal) out_tc tc_log
                         (resolution (ard a)) (dem (ard a)));;
  return_code <- check_out_dimap out_tc true;;
  abort_if_failed (temp_dir a) return_code;;
  move_dimap out_tc (opj (out_dir a) (master_burst_id a +:+ "_bs"));;
  ret return_code.

(** [if ard['create ls mask']:] *)
Definition ls_mask (return_code : Z) (out_cal : path) : M Z :=
  if create_ls_mask (ard a) then
    let out_ls := opj (temp_dir a) (master_burst_id a +:+ "_LS") in
    let ls_log := opj (out_dir a) (master_burst_id a +:+ "_LS.err_log") in
    return_code <- call (_ls_mask (dim out_cal) out_ls ls_log
                                  (resolution (ard a)) (dem (ard a)));;
    abort_if_failed (temp_dir a) return_code;;
    return_code <- check_out_dimap out_ls false;;
    abort_if_failed (temp_dir a) return_code;;
    move_dimap out_ls (opj (out_dir a) (master_burst_id a +:+ "_LS"));;
    ret return_code
  else ret return_code.

(** [if coherence:], for the value given as [slave_file] *)
Definition coherence_branch_of (slave_file : py_value) (return_code : Z)
    : M Z :=
  if coherence a then
    let import_log :=
      opj (out_dir a) (slave_burst_id a +:+ "_import.err_log") in
    let polars := remove_spaces (polarisation (ard a)) in
    return_code <- call (_import slave_file slave_import import_log
                                 (swath a) (slave_burst_nr a) polars);;
    abort_if_failed (temp_dir a) return_code;;
    let out_coreg := opj (temp_dir a) (master_burst_id a +:+ "_coreg") in
    let coreg_log :=
      opj (out_dir a) (master_burst_id a +:+ "_coreg.err_log") in
    return_code <- call (_coreg2 (dim master_import) (dim slave_import)
                                 out_coreg coreg_log (dem (ard a)));;
    abort_if_failed (temp_dir a) return_code;;
    delete_dimap master_import;;
    (if remove_slave_import a then delete_dimap slave_import else ret tt);;
    let out_coh := opj (temp_dir a) (master_burst_id a +:+ "_c") in
    let coh_log := opj (out_dir a) (master_burst_id a +:+ "_coh.err_log") in
    let coh_polars := remove_spaces (coherence_bands (ard a)) in
    return_code <- call (_coherence (dim out_coreg) out_coh coh_log
                                    coh_polars);;
    abort_if_failed (temp_dir a) return_code;;
    delete_dimap out_coreg;;
    let out_tc := opj (temp_dir a) (master_burst_id a +:+ "_coh") in
    let tc_log :=
      opj (out_dir a) (master_burst_id a +:+ "_coh_tc.err_log") in
    return_code <- call (_terrain_correction (dim out_coh) out_tc tc_log
                           (resolution (ard a)) (dem (ard a)));;
    return_code <- check_out_dimap out_tc true;;
    abort_if_failed (temp_dir a) return_code;;
    move_dimap out_tc (opj (out_dir a) (master_burst_id a +:+ "_coh"));;
    delete_dimap out_coh;;
    ret return_code
  else ret return_code.

(** Everything up to the final test; the value is the [return_code]
    that test reads. *)
Definition stages_of (slave_file : py_value) : M Z :=
  import_master;;
  ha_alpha_branch;;
  '(return_code, out_cal) <- calibrate;;
  '(return_code, out_cal) <- speckle_filtering return_code out_cal;;
  '(return_code, out_cal) <- terrain_flattening return_code out_cal;;
  '(return_code, out_cal) <- linear_to_db return_code out_cal;;
  return_code <- geocode_backscatter out_cal;;
  return_code <- ls_mask return_code out_cal;;
  delete_dimap out_cal;;
  coherence_branch_of slave_file return_code.

(** write file, so we know this burst has been succesfully processed *)
Definition write_marker_or_purge (return_code : Z) : M Empty_set :=
  (if (return_code =? 0)%Z then
     write_file check_file
   else
     remove_folder_content (temp_dir a);;
     remove_folder_content (out_dir a));;
  return_ return_code.

Definition burst_to_ard_of (slave_file : py_value) : M Empty_set :=
  return_code <- stages_of slave_file;;
  write_marker_or_purge return_code.

(** The same for a [slave_file] that is a string, as documented. *)
Definition coherence_branch (return_code : Z) : M Z :=
  coherence_branch_of (PyStr (slave_file a)) return_code.
Definition stages : M Z := stages_of (PyStr (slave_file a)).
Definition burst_to_ard : M Empty_set :=
  burst_to_ard_of (PyStr (slave_file a)).

End Body.

(** One run: the call of [burst_to_ard] on a file system. *)
Definition run (a : burst_args) (f : filesystem) : outcome * World :=
  exec (burst_to_ard a) {| fs := f; trace := [] |}.

End Pipeline.

(** ** The schedule of a run

    The commands, with their log files, that [burst_to_ard] issues for given
    arguments when no stage fails, in the order in which it issues them.
    The schedule depends on the processing parameters and on whether the
    master import is already on disk; it is related to the code by
    [stages_schedule] below. *)

(** The graph [_calibration] selects; [None] where it calls [sys.exit]. *)
Definition calibration_graph (product_type : string) : option cal_graph :=
  if String.eqb product_type "RTC" then Some Calbeta
  else if String.eqb product_type "GTCgamma" then Some CalGamma
  else if String.eqb product_type "GTCsigma" then Some CalSigma
  else None.

Section Schedule.

Variable a : burst_args.

Definition temp_product (suffix : string) : path :=
  opj (temp_dir a) (master_burst_id a +:+ suffix).
Definition stage_log (burst_id tag : string) : path :=
  opj (out_dir a) (burst_id +:+ "_" +:+ tag +:+ ".err_log").

Definition import_command : command :=
  BurstSplit (master_file a) (remove_spaces (polarisation (ard a))) (swath a)
             (master_burst_nr a) (master_import a).
Definition slave_import_command : command :=
  BurstSplit (slave_file a) (remove_spaces (polarisation (ard a))) (swath a)
             (slave_burst_nr a) (slave_import a).

Definition schedule_import (present : bool) : list (command * path) :=
  if present then []
  else [(import_command, stage_log (master_burst_id a) "import")].

Definition schedule_ha_alpha : list (command * path) :=
  if H_A_Alpha (ard a) then
    [(Halpha (remove_pol_speckle (ard a)) (dim (master_import a))
             (temp_product "_h"),
      stage_log (master_burst_id a) "haa");
     (TerrainCorrection (dim (temp_product "_h")) (resolution (ard a))
                        (dem (ard a)) (temp_product "_pol"),
      stage_log (master_burst_id a) "haa_tc")]
  else [].

Definition schedule_calibrate : list (command * path) :=
  match calibration_graph (product_type (ard a)) with
  | Some g => [(Calibrate g (dim (master_import a)) (temp_product "_cal"),
                stage_log (master_burst_id a) "cal")]
  | None => []
  end.

(** The successive values of [out_cal]. *)
Definition out_cal_speckle : path :=
  if remove_speckle (ard a) then temp_product "_speckle_import"
  else temp_product "_cal".
Definition out_cal_rtc : path :=
  if String.eqb (product_type (ard a)) "RTC" then temp_product "_rtc"
  else out_cal_speckle.
Definition out_cal_db : path :=
  if to_db (ard a) then temp_product "_cal_db" else out_cal_rtc.

Definition schedule_speckle : list (command * path) :=
  if remove_speckle (ard a) then
    [(SpeckleFilter (dim (temp_product "_cal"))
                    (temp_product "_speckle_import"),
      stage_log (master_burst_id a) "speckle")]
  else [].

Definition schedule_flattening : list (command * path) :=
  if String.eqb (product_type (ard a)) "RTC" then
    [(TerrainFlattening (dem (ard a)) (dim out_cal_speckle)
                        (temp_product "_rtc"),
      stage_log (master_burst_id a) "rtc")]
  else [].

Definition schedule_db : list (command * path) :=
  if to_db (ard a) then
    [(LinearToFromdB (dim out_cal_rtc) (temp_product "_cal_db"),
      stage_log (master_burst_id a) "cal_db")]
  else [].

Definition schedule_geocode : list (command * path) :=
  [(TerrainCorrection (dim out_cal_db) (resolution (ard a)) (dem (ard a))
                      (temp_product "_bs"),
    stage_log (master_burst_id a) "bs_tc")].

Definition schedule_ls_mask : list (command * path) :=
  if create_ls_mask (ard a) then
    [(LSMask (dim out_cal_db) (resolution (ard a)) (dem (ard a))
             (temp_product "_LS"),
      stage_log (master_burst_id a) "LS")]
  else [].

Definition schedule_coherence : list (command * path) :=
  if coherence a then
    [(slave_import_command, stage_log (slave_burst_id a) "import");
     (Coreg (dim (master_import a)) (dim (slave_import a)) (dem (ard a))
            (temp_product "_coreg"),
      stage_log (master_burst_id a) "coreg");
     (CoherenceEst (dim (temp_product "_coreg"))
                   (remove_spaces (coherence_bands (ard a)))
                   (temp_product "_c"),
      stage_log (master_burst_id a) "coh");
     (TerrainCorrection (dim (temp_product "_c")) (resolution (ard a))
                        (dem (ard a)) (temp_product "_coh"),
      stage_log (master_burst_id a) "coh_tc")]
  else [].

Definition schedule (present : bool) : list (command * path) :=
  schedule_import present ++ schedule_ha_alpha ++ schedule_calibrate ++
  schedule_speckle ++ schedule_flattening ++ schedule_db ++
  schedule_geocode ++ schedule_ls_mask ++ schedule_coherence.

End Schedule.

(** The command and log file of an invocation. *)
Definition cmd_log (ev : event) : command * path :=
  (ev_command ev, ev_logfile ev).

(** ** Stages *)

Definition is_import (c : command) : bool :=
  match c with BurstSplit _ _ _ _ _ => true | _ => false end.
Definition is_calibration (c : command) : bool :=
  match c with Calibrate _ _ _ => true | _ => false end.
Definition is_speckle_filter (c : command) : bool :=
  match c with SpeckleFilter _ _ => true | _ => false end.
Definition is_terrain_flattening (c : command) : bool :=
  match c with TerrainFlattening _ _ _ => true | _ => false end.

(** The terrain correction of the backscatter product, which writes
    [<temp_dir>/<master_burst_id>_bs]. *)
Definition is_backscatter_geocoding (a : burst_args) (c : command) : bool :=
  match c with
  | TerrainCorrection _ _ _ o => bool_decide (o = temp_product a "_bs")
  | _ => false
  end.


(** An engine that writes its product whenever it exits with 0. *)
Definition writes_on_success (gpt : command → filesystem → gpt_result) : Prop :=
  ∀ c f, exit_code (gpt c f) = 0%Z →
         writes_dim (gpt c f) = true ∧ is_Some (writes_data (gpt c f)).

(** ** Concrete runs *)

Module Examples.

Definition srtm : dem_dict :=
  {| dem_name := "SRTM 1sec HGT"; dem_file := "srtm_1sec.hgt"; dem_nodata := "0";
     dem_resampling := "BILINEAR_INTERPOLATION";
     image_resampling := "BILINEAR_INTERPOLATION" |}.

Definition ard_of (product_type : string)
    (haa speckle db ls : bool) : ard_params :=
  {| polarisation := "VV, VH"; H_A_Alpha := haa; remove_pol_speckle := false;
     product_type := product_type; remove_speckle := speckle; to_db := db;
     create_ls_mask := ls; resolution := 20; dem := srtm;
     coherence_bands := "VV" |}.

Definition args_of (ard : ard_params) (coherence : bool) : burst_args :=
  {| master_file := "S1A_master.zip"; swath := "IW1"; master_burst_nr := "3";
     master_burst_id := "A015_IW1_7";
     ard := ard; out_dir := "out"; temp_dir := "tmp";
     slave_file := "S1A_slave.zip"; slave_burst_nr := "3";
     slave_burst_id := "B015_IW1_7";
     coherence := coherence; remove_slave_import := false |}.

(** All optional stages off, ellipsoid-corrected gamma nought. *)
Definition plain : burst_args :=
  args_of (ard_of "GTCgamma" false false false false) false.
(** The same with the layover/shadow mask. *)
Definition with_ls_mask : burst_args :=
  args_of (ard_of "GTCgamma" false false false true) false.
(** The same with the coherence branch. *)
Definition with_coherence : burst_args :=
  args_of (ard_of "GTCgamma" false false false false) true.
(** Speckle-filtered RTC product. *)
Definition rtc : burst_args :=
  args_of (ard_of "RTC" false true false false) false.
(** A product type [_calibration] does not know. *)
Definition unknown_type : burst_args :=
  args_of (ard_of "GTC" false false false false) false.

Definition good : gpt_result :=
  {| exit_code := 0; writes_dim := true; writes_data := Some true |}.
Definition crashed : gpt_result :=
  {| exit_code := 1; writes_dim := false; writes_data := None |}.

(** An engine on which every stage succeeds, one on which every stage
    fails, and one on which only the terrain correction fails. *)
Definition gpt_ok : command → filesystem → gpt_result := λ _ _, good.
Definition gpt_failing : command → filesystem → gpt_result := λ _ _, crashed.
Definition gpt_tc_failing : command → filesystem → gpt_result := λ c _,
  match c with TerrainCorrection _ _ _ _ => crashed | _ => good end.


Definition empty_disk : filesystem := ∅.

(** A backscatter product left in the temp directory by an earlier run. *)
Definition stale_backscatter : filesystem :=
  <[opj "tmp" "A015_IW1_7_bs.dim" := RegularFile]>
    (<[opj "tmp" "A015_IW1_7_bs.data" := PayloadDir true]> ∅).


(** An output directory that still holds the marker of an earlier run. *)
Definition stale_marker : filesystem :=
  <[opj "out" ".processed" := RegularFile]> ∅.

(** Both imports already on disk. *)
Definition imports_on_disk : filesystem :=
  <[opj "tmp" "A015_IW1_7_import.dim" := RegularFile]>
    (<[opj "tmp" "A015_IW1_7_import.data" := PayloadDir true]>
       (<[opj "tmp" "B015_IW1_7_import.dim" := RegularFile]>
          (<[opj "tmp" "B015_IW1_7_import.data" := PayloadDir true]> ∅))).

End Examples.

(** ** Reasoning about function bodies *)

(** [wp m Qv Qr Qe w]: run in [w], [m] ends in a world that satisfies [Qv]
    if it falls through, [Qr] if it returns and [Qe] if it is left by
    [sys.exit] or by an exception. *)
Definition wp {A} (m : M A) (Qv : A → World → Prop) (Qr : Z → World → Prop)
    (Qe : abort → World → Prop) (w : World) : Prop :=
  match m w with
  | (Val a, w') => Qv a w'
  | (Ret rc, w') => Qr rc w'
  | (Abort x, w') => Qe x w'
  end.

(** [maintains I R m]: started in a world where [I] holds, [m] falls through
    or exits in a world where [I] holds, and returns [rc] in a world where
    [R rc] holds. *)
Definition maintains (I : World → Prop) (R : Z → World → Prop) {A} (m : M A)
    : Prop :=
  ∀ w, I w → wp m (λ _, I) R (λ _, I) w.

(** The characters of a string and its last [n] characters, last first. *)
Fixpoint chars (s : string) : list ascii :=
  match s with
  | EmptyString => []
  | String c s' => c :: chars s'
  end.

Definition ending (n : nat) (s : string) : list ascii :=
  take n (reverse (chars s)).

(** What holds when [burst_to_ard] returns from a failure it detected: the
    code is not 0 and the temp directory is empty. *)
Definition cleaned (a : burst_args) (rc : Z) (w : World) : Prop :=
  rc ≠ 0%Z ∧ ls (temp_dir a) (fs w) = [].



(** The completion marker is not in the output directory. *)
Definition no_marker (a : burst_args) (w : World) : Prop :=
  fs w !! check_file a = None.

(** What holds when a run that started without a marker returns from a
    failure it detected. *)
Definition failed_no_marker (a : burst_args) (rc : Z) (w : World) : Prop :=
  rc ≠ 0%Z ∧ no_marker a w.

(** From [w] to [w'] the invocations [p] were made, in this order. *)
Definition extends_by (p : list (command * path)) (w w' : World) : Prop :=
  cmd_log <$> trace w' = (cmd_log <$> trace w) ++ p.

(** From [w] to [w'] a first part of the invocations [p] was made. *)
Definition partially (p : list (command * path)) (w w' : World) : Prop :=
  ∃ q, q `prefix_of` p ∧ extends_by q w w'.

(** [follows p V m w]: run in [w], [m] makes the invocations [p] and falls
    through with a value that satisfies [V], or makes a first part of them
    and returns or exits. *)
Definition follows {A} (p : list (command * path)) (V : A → Prop) (m : M A)
    (w : World) : Prop :=
  wp m (λ v w', V v ∧ extends_by p w w')
       (λ _ w', partially p w w') (λ _ w', partially p w w') w.

(** The trace of [w] starts with the events [t]. *)
Definition trace_from (t : list event) (w : World) : Prop :=
  ∃ evs, trace w = t ++ evs.



(** A product is on disk, with its descriptor and its payload, or gone. *)
Definition product_on_disk (p : path) (f : filesystem) : Prop :=
  is_Some (f !! dim p) ∧ is_Some (f !! data p).
Definition product_gone (p : path) (f : filesystem) : Prop :=
  f !! dim p = None ∧ f !! data p = None.

(** The final products in the output directory. *)
Definition final_product (a : burst_args) (suffix : string) : path :=
  opj (out_dir a) (master_burst_id a +:+ suffix).

(** What is on disk at the end of the coherence branch when the slave
    import is kept. *)
Definition after_coherence (a : burst_args) (f : filesystem) : Prop :=
  product_on_disk (slave_import a) f ∧
  product_gone (master_import a) f ∧
  product_gone (temp_product a "_coreg") f ∧
  product_on_disk (final_product a "_bs") f ∧
  product_on_disk (final_product a "_coh") f.

(** ** The command-line client

    The block under [if __name__ == "__main__"] parses the command line and
    calls [burst_to_ard] with the attributes of the parsed namespace.  No
    option of the parser has a [type] or an [action]: an attribute is the
    string given on the command line or, for an option that is not given,
    its default, [None] or [False]. *)

(** The attribute of an option with the given default. *)
Definition parsed (default : py_value) (given : option string) : py_value :=
  match given with
  | Some s => PyStr s
  | None => default
  end.

(** The options given on the command line; the required ones are strings,
    the others may be missing. *)
Record command_line : Type := {
  cl_master : string;
  cl_master_swath : string;
  cl_master_burst_nr : string;
  cl_master_burst_id : option string;
  cl_out_directory : string;
  cl_temp_directory : string;
  cl_slave : option string;
  cl_slave_burst_nr : option string;
  cl_slave_burst_id : option string;
  cl_coherence : option string;
  cl_remove_slave_import : option string
}.

(** The arguments [burst_to_ard] is called with, but for [slave_file];
    [ard] stands for the content of the file given as [--proc_file].  The
    burst ids and numbers are used through ['{}'.format] only, which gives
    the text of a default.  The field [slave_file] holds the scene given
    as [--slave]; when none is given it is read by nothing: [main] hands
    the parsed value to [burst_to_ard_of]. *)
Definition main_args (cl : command_line) (ard : ard_params) : burst_args :=
  {| master_file := cl_master cl;
     swath := cl_master_swath cl;
     master_burst_nr := cl_master_burst_nr cl;
     master_burst_id := py_format (parsed PyNone (cl_master_burst_id cl));
     ard := ard;
     out_dir := cl_out_directory cl;
     temp_dir := cl_temp_directory cl;
     slave_file := default EmptyString (cl_slave cl);
     slave_burst_nr := py_format (parsed PyFalse (cl_slave_burst_nr cl));
     slave_burst_id := py_format (parsed PyFalse (cl_slave_burst_id cl));
     coherence := py_truth (parsed PyFalse (cl_coherence cl));
     remove_slave_import :=
       py_is_True (parsed PyFalse (cl_remove_slave_import cl)) |}.

(** execute processing *)
Definition main (gpt : command → filesystem → gpt_result)
    (integrity_error : positive) (cl : command_line) (ard : ard_params)
    (f : filesystem) : outcome * World :=
  exec (burst_to_ard_of gpt integrity_error (main_args cl ard)
                        (parsed PyFalse (cl_slave cl)))
       {| fs := f; trace := [] |}.

(** ** More about stages and runs *)

Definition is_beta_calibration (c : command) : bool :=
  match c with Calibrate Calbeta _ _ => true | _ => false end.

(** The stages of the coherence branch other than the import: the
    coregistration, the coherence estimation and the terrain correction
    that writes [<temp_dir>/<master_burst_id>_coh]. *)
Definition is_coherence_stage (a : burst_args) (c : command) : bool :=
  match c with
  | Coreg _ _ _ _ => true
  | CoherenceEst _ _ _ => true
  | TerrainCorrection _ _ _ o => bool_decide (o = temp_product a "_coh")
  | _ => false
  end.

(** The products only the coherence branch makes: the coregistered
    pair, the coherence, its geocoded form and the final coherence. *)
Definition coherence_products (a : burst_args) : list path :=
  [temp_product a "_coreg"; temp_product a "_c"; temp_product a "_coh";
   final_product a "_coh"].

(** The stages whose product [burst_to_ard] checks with
    [h.check_out_dimap]. *)
Definition is_checked (c : command) : bool :=
  match c with
  | TerrainCorrection _ _ _ _ => true
  | LSMask _ _ _ _ => true
  | _ => false
  end.

(** A return code [rc] that the last invocation accounts for: its exit
    code, or the error code of the check of its product. *)
Definition accounted_for (integrity_error : positive) (rc : Z) (w : World)
    : Prop :=
  ∃ ev, last (trace w) = Some ev ∧
        (ev_return_code ev = rc ∨
         (rc = Z.pos integrity_error ∧ is_checked (ev_command ev) = true)).

(** [ends code m]: when [m] returns, its code is accounted for by the last
    invocation made. *)
Definition ends (integrity_error : positive) {A} (m : M A) : Prop :=
  ∀ w, wp m (λ _ _, True) (accounted_for integrity_error) (λ _ _, True) w.

(** [step_or E I J m]: started in a world where [I] holds, [m] falls
    through in a world where [J] holds, or returns or exits in a world
    where [E] holds; [step I J m] when nothing is said about the worlds it
    returns or exits in. *)
Definition step_or (E I J : World → Prop) {A} (m : M A) : Prop :=
  ∀ w, I w → wp m (λ _, J) (λ _, E) (λ _, E) w.
Definition step (I J : World → Prop) {A} (m : M A) : Prop :=
  step_or (λ _, True) I J m.

(** ** The products a stage reads *)

Definition cmd_inputs (c : command) : list path :=
  match c with
  | BurstSplit _ _ _ _ _ => []
  | Halpha _ i _ | Calibrate _ i _ | TerrainFlattening _ i _
  | SpeckleFilter i _ | LinearToFromdB i _ | LSMask i _ _ _
  | CoherenceEst i _ _ | TerrainCorrection i _ _ _ => [i]
  | Coreg master slave _ _ => [master; slave]
  end.

(** The descriptor [i] is the one of the output of an invocation of [t]
    that exited with 0. *)
Definition made_by (t : list event) (i : path) : Prop :=
  ∃ ev, ev ∈ t ∧ ev_return_code ev = 0%Z ∧
        i = dim (cmd_output (ev_command ev)).

(** What a stage may read after the invocations [t]: the import of the
    master burst, made by the run or found on disk, or what one of [t]
    made. *)
Definition available (a : burst_args) (t : list event) (i : path) : Prop :=
  i = dim (master_import a) ∨ made_by t i.

(** Every invocation of [t] reads what was available when it was made. *)
Definition sourced (a : burst_args) (t : list event) : Prop :=
  ∀ t1 ev t2, t = t1 ++ ev :: t2 →
    ∀ i, i ∈ cmd_inputs (ev_command ev) → available a t1 i.

Definition chained (a : burst_args) (p : path) (w : World) : Prop :=
  sourced a (trace w) ∧ available a (trace w) (dim p).

(** The product [p] passes the check of [h.check_out_dimap]. *)
Definition verified (p : path) (test_stats : bool) (w : World) : Prop :=
  verify_dimap p test_stats (fs w) = true.

(** The polarisations a command hands to the engine. *)
Definition cmd_polar (c : command) : option string :=
  match c with
  | BurstSplit _ polar _ _ _ => Some polar
  | CoherenceEst _ polar _ => Some polar
  | _ => None
  end.

Definition has_no_space (s : string) : Prop := " "%char ∉ chars s.





(** The products that are final for the processing parameters of [a], each
    with whether its check asks for statistics. *)
Definition final_products (a : burst_args) : list (path * bool) :=
  (if H_A_Alpha (ard a) then [(final_product a "_pol", true)] else []) ++
  [(final_product a "_bs", true)] ++
  (if create_ls_mask (ard a) then [(final_product a "_LS", false)] else []) ++
  (if coherence a then [(final_product a "_coh", true)] else []).

(** ** What a failed run leaves in the output directory *)




(** * Properties *)

(** ** Rules for [wp] *)

Section WpRules.
Context {A B : Type}.
Implicit Types (Qr : Z → World → Prop) (Qe : abort → World → Prop).
Implicit Types (w : World).

Lemma wp_ret (x : A) (Qv : A → World → Prop) Qr Qe w :
  Qv x w → wp (ret x) Qv Qr Qe w.
Proof. done. Qed.

Lemma wp_return (rc : Z) (Qv : A → World → Prop) Qr Qe w :
  Qr rc w → wp (return_ rc) Qv Qr Qe w.
Proof. done. Qed.

Lemma wp_bind (m : M A) (k : A → M B) (Qv : B → World → Prop) Qr Qe w :
  wp m (λ x, wp (k x) Qv Qr Qe) Qr Qe w → wp (bind m k) Qv Qr Qe w.
Proof. unfold wp, bind. by destruct (m w) as [[x|rc|c] w']. Qed.

Lemma wp_mono (m : M A) (Qv Qv' : A → World → Prop) Qr Qr' Qe Qe' w :
  wp m Qv Qr Qe w →
  (∀ x w', Qv x w' → Qv' x w') →
  (∀ rc w', Qr rc w' → Qr' rc w') →
  (∀ c w', Qe c w' → Qe' c w') →
  wp m Qv' Qr' Qe' w.
Proof. unfold wp. destruct (m w) as [[x|rc|c] w']; auto. Qed.

Lemma wp_and (m : M A) (Qv Qv' : A → World → Prop) Qr Qr' Qe Qe' w :
  wp m Qv Qr Qe w → wp m Qv' Qr' Qe' w →
  wp m (λ x w', Qv x w' ∧ Qv' x w') (λ rc w', Qr rc w' ∧ Qr' rc w')
       (λ c w', Qe c w' ∧ Qe' c w') w.
Proof. unfold wp. by destruct (m w) as [[x|rc|c] w']. Qed.

Lemma wp_true (m : M A) w :
  wp m (λ _ _, True) (λ _ _, True) (λ _ _, True) w.
Proof. unfold wp. by destruct (m w) as [[x|rc|c] w']. Qed.

Lemma wp_elim (m : M A) (Qv : A → World → Prop) Qr Qe w r w' :
  wp m Qv Qr Qe w → m w = (r, w') →
  match r with Val x => Qv x w' | Ret rc => Qr rc w' | Abort c => Qe c w' end.
Proof. unfold wp. intros H E. by rewrite E in H. Qed.
End WpRules.

Lemma wp_modify_fs g (Qv : unit → World → Prop) Qr Qe w :
  Qv tt {| fs := g (fs w); trace := trace w |} → wp (modify_fs g) Qv Qr Qe w.
Proof. done. Qed.

Lemma wp_io_op blocked g (Qv : unit → World → Prop) Qr Qe w :
  (blocked (fs w) = false → Qv tt {| fs := g (fs w); trace := trace w |}) →
  (blocked (fs w) = true → Qe (Error IoError) w) →
  wp (io_op blocked g) Qv Qr Qe w.
Proof. intros Hv He. unfold wp, io_op. destruct (blocked (fs w)); auto. Qed.

Lemma wp_get_fs (Qv : filesystem → World → Prop) Qr Qe w :
  Qv (fs w) w → wp get_fs Qv Qr Qe w.
Proof. done. Qed.

Lemma wp_exec (body : M Empty_set) (Q : outcome → World → Prop) w :
  wp body (λ _ _, False) (λ rc, Q (Returned rc)) (λ x, Q (Ended x)) w →
  Q (exec body w).1 (exec body w).2.
Proof. unfold wp, exec. by destruct (body w) as [[[]|rc|c] w']. Qed.

(** ** Rules for [maintains] *)

Section Maintains.
Context (I : World → Prop) (R : Z → World → Prop).

Lemma maintains_ret {A} (x : A) : maintains I R (ret x).
Proof. by intros w Hw. Qed.

Lemma maintains_bind {A B} (m : M A) (k : A → M B) :
  maintains I R m → (∀ x, maintains I R (k x)) → maintains I R (bind m k).
Proof.
  intros Hm Hk w Hw. apply wp_bind.
  eapply wp_mono; [by apply Hm|intros x w' Hw'; by apply Hk|done..].
Qed.

Lemma maintains_if {A} (b : bool) (m1 m2 : M A) :
  maintains I R m1 → maintains I R m2 →
  maintains I R (if b then m1 else m2).
Proof. by destruct b. Qed.

Lemma maintains_get_fs : maintains I R get_fs.
Proof. by intros w Hw. Qed.

Lemma maintains_modify_fs g :
  (∀ w, I w → I {| fs := g (fs w); trace := trace w |}) →
  maintains I R (modify_fs g).
Proof. intros Hg w Hw. by apply Hg. Qed.

Lemma maintains_io_op blocked g :
  (∀ w, I w → I {| fs := g (fs w); trace := trace w |}) →
  maintains I R (io_op blocked g).
Proof. intros Hg w Hw. apply wp_io_op; intros _; [by apply Hg|done]. Qed.

Lemma maintains_return {A} rc :
  (∀ w, I w → R rc w) → maintains I R (return_ (A:=A) rc).
Proof. intros H w Hw. by apply H. Qed.

Lemma maintains_wp {A} (m : M A) (Qv : A → World → Prop) Qr Qe w :
  maintains I R m → I w →
  (∀ x w', I w' → Qv x w') → (∀ rc w', R rc w' → Qr rc w') →
  (∀ c w', I w' → Qe c w') →
  wp m Qv Qr Qe w.
Proof. intros Hm Hw Hv Hr He. eapply wp_mono; [by apply Hm|done..]. Qed.

Lemma maintains_check_out_dimap code p t :
  maintains I R (check_out_dimap code p t).
Proof. by intros w Hw. Qed.

Lemma maintains_call_run gpt c l :
  (∀ w, I w → I (run_command gpt c l w).2) →
  maintains I R (call (rc <- run_command gpt c l;; return_ rc)).
Proof. intros H w Hw. by apply H. Qed.

Lemma maintains_call_calibration gpt infile outfile l pt :
  (∀ g w, I w → I (run_command gpt (Calibrate g infile outfile) l w).2) →
  maintains I R (call (_calibration gpt infile outfile l pt)).
Proof.
  intros H w Hw. unfold _calibration.
  destruct (String.eqb pt "RTC"); [by apply H|].
  destruct (String.eqb pt "GTCgamma"); [by apply H|].
  destruct (String.eqb pt "GTCsigma"); [by apply H|done].
Qed.
End Maintains.

(** Splits a goal [maintains I R m] along the structure of [m]; [prim]
    takes care of the engine calls, of the file system updates and of
    [abort_if_failed]. *)
Ltac maintains_structure prim :=
  repeat lazymatch goal with
    | |- maintains _ _ (bind _ _) => apply maintains_bind; [|intros ?]
    | |- maintains _ _ (ret _) => apply maintains_ret
    | |- maintains _ _ get_fs => apply maintains_get_fs
    | |- maintains _ _ (check_out_dimap _ _ _) =>
        apply maintains_check_out_dimap
    | |- maintains _ _ (if _ then _ else _) => apply maintains_if
    | |- maintains _ _ (match ?x with (_, _) => _ end) => destruct x
    | |- maintains _ _ (abort_if_failed _ _) => prim
    | |- maintains _ _ (call _) => prim
    | |- maintains _ _ (modify_fs _) => prim
    | |- maintains _ _ (io_op _ _) => prim
    | |- maintains _ _ (return_ _) => prim
    end.

Ltac unfold_blocks :=
  unfold stages, stages_of, import_master, ha_alpha_branch, calibrate,
    speckle_filtering, terrain_flattening, linear_to_db, geocode_backscatter,
    ls_mask, coherence_branch, coherence_branch_of, write_marker_or_purge,
    os_path_exists, move_dimap, delete_dimap, remove_folder_content,
    write_file.

(** ** Names *)

Lemma chars_app s t : chars (s +:+ t) = chars s ++ chars t.
Proof.
  induction s as [|c s IH]; [done|].
  change (c :: chars (s +:+ t) = c :: chars s ++ chars t).
  by rewrite IH.
Qed.

Lemma append_assoc s t u : (s +:+ t) +:+ u = s +:+ (t +:+ u).
Proof.
  induction s as [|c s IH]; [done|].
  change (String c ((s +:+ t) +:+ u) = String c (s +:+ t +:+ u)).
  by rewrite IH.
Qed.

Lemma ending_app n s t : n ≤ length (chars t) → ending n (s +:+ t) = ending n t.
Proof.
  intros Hn. unfold ending. rewrite chars_app, reverse_app.
  apply take_app_le. by rewrite length_reverse.
Qed.

(** Two names with different endings are different. *)
Lemma append_neq_ending n s1 t1 s2 t2 :
  n ≤ length (chars t1) → n ≤ length (chars t2) →
  ending n t1 ≠ ending n t2 → s1 +:+ t1 ≠ s2 +:+ t2.
Proof.
  intros H1 H2 Hne Heq. apply Hne.
  rewrite <- (ending_app n s1 t1), <- (ending_app n s2 t2) by done.
  by rewrite Heq.
Qed.

Lemma literal_neq_ending n t1 s2 t2 :
  n ≤ length (chars t1) → n ≤ length (chars t2) →
  ending n t1 ≠ ending n t2 → t1 ≠ s2 +:+ t2.
Proof. intros. by apply (append_neq_ending n EmptyString t1 s2 t2). Qed.

Lemma append_neq_prefix s1 s2 t : s1 ≠ s2 → s1 +:+ t ≠ s2 +:+ t.
Proof.
  intros Hne Heq. apply Hne. clear Hne. revert s2 Heq.
  induction s1 as [|c s1 IH]; intros [|c2 s2] Heq; [done|..].
  - exfalso. apply (f_equal (λ s, length (chars s))) in Heq.
    change (EmptyString +:+ t) with t in Heq.
    change (String c2 s2 +:+ t) with (String c2 (s2 +:+ t)) in Heq.
    simpl in Heq. rewrite chars_app, length_app in Heq. lia.
  - exfalso. apply (f_equal (λ s, length (chars s))) in Heq.
    change (EmptyString +:+ t) with t in Heq.
    change (String c s1 +:+ t) with (String c (s1 +:+ t)) in Heq.
    simpl in Heq. rewrite chars_app, length_app in Heq. lia.
  - change (String c (s1 +:+ t) = String c2 (s2 +:+ t)) in Heq.
    injection Heq as -> Heq. f_equal. by apply IH.
Qed.

Ltac ending_neq n :=
  first
    [ apply (append_neq_ending n)
    | apply (literal_neq_ending n)
    | apply not_eq_sym; apply (literal_neq_ending n) ];
  [simpl; lia | simpl; lia | vm_compute; discriminate].

(** Proves that two names built from burst ids and literal suffixes
    differ. *)
Ltac name_neq :=
  rewrite ?append_assoc; simpl String.append;
  first
    [ discriminate
    | let H := fresh in
      intros H; apply (inj (String.append _)) in H; discriminate H
    | apply append_neq_prefix; first [assumption | by apply not_eq_sym]
    | ending_neq 5 | ending_neq 6 | ending_neq 9 | ending_neq 4 ].

(** Proves that two paths differ, by their directories or their names. *)
Ltac path_neq :=
  unfold check_file, master_import, slave_import, temp_product, stage_log,
    final_product, out_cal_db, out_cal_rtc, out_cal_speckle, temp_product,
    dim, data, opj;
  repeat case_match; simpl;
  let H := fresh in
  first
    [ intros H; apply (f_equal snd) in H; simpl in H; revert H; name_neq
    | intros H; apply (f_equal fst) in H; simpl in H; congruence ].

(** ** Directories *)

Lemma prefix_refl (s : string) : String.prefix s s = true.
Proof.
  induction s as [|c s IH]; [done|]. simpl.
  by destruct (ascii_dec c c).
Qed.

Lemma as_dir_cons (c c' : ascii) (d : string) :
  as_dir (String c (String c' d)) = String c (as_dir (String c' d)).
Proof. done. Qed.

Lemma as_dir_cons_inv (c : ascii) (d : string) :
  ∃ c' d', as_dir (String c d) = String c' d'.
Proof. destruct d as [|c2 d]; simpl; [destruct (Ascii.eqb c "/")|]; eauto. Qed.

Lemma as_dir_idemp (d : string) : as_dir (as_dir d) = as_dir d.
Proof.
  induction d as [|c d IH]; [done|].
  destruct d as [|c' d].
  - simpl. destruct (Ascii.eqb c "/") eqn:Hc; simpl; [by rewrite Hc|done].
  - rewrite as_dir_cons.
    destruct (as_dir_cons_inv c' d) as (c2 & d2 & Hd).
    rewrite Hd in IH |- *. rewrite as_dir_cons. by rewrite IH.
Qed.


Lemma dir_under_opj (d n : string) : dir_under d (opj d n).1 = true.
Proof. unfold dir_under, opj. simpl. rewrite as_dir_idemp. apply prefix_refl. Qed.



(** ** The file system *)

Lemma elem_of_ls (d : string) (k : path) (f : filesystem) :
  k ∈ ls d f ↔ dir_under d k.1 = true ∧ is_Some (f !! k).
Proof.
  unfold ls. rewrite list_elem_of_omap. split.
  - intros [[k' x] [Hin Heq]]. simpl in Heq.
    destruct (dir_under d k'.1) eqn:Hd; [|done]. simplify_eq.
    apply elem_of_map_to_list in Hin. eauto.
  - intros [Hd [x Hx]]. exists (k, x). split.
    + by apply elem_of_map_to_list.
    + simpl. by rewrite Hd.
Qed.

Lemma ls_nil (d : string) (f : filesystem) :
  ls d f = [] ↔ ∀ k : path, dir_under d k.1 = true → f !! k = None.
Proof.
  split.
  - intros Hnil k Hd. apply eq_None_not_Some. intros Hk.
    assert (k ∈ ls d f) as Hin by by apply elem_of_ls.
    rewrite Hnil in Hin. by apply not_elem_of_nil in Hin.
  - intros Hnone. apply elem_of_nil_inv. intros k [Hd Hk]%elem_of_ls.
    rewrite (Hnone k Hd) in Hk. by destruct Hk.
Qed.

Lemma purged_lookup (d : string) (k : path) (f : filesystem) :
  dir_under d k.1 = true → purge d f !! k = None.
Proof.
  intros Hk. apply map_lookup_filter_None. right. intros x _. simpl.
  by rewrite Hk.
Qed.


Lemma purged_lookup_None (d : string) (k : path) (f : filesystem) :
  f !! k = None → purge d f !! k = None.
Proof. intros Hk. apply map_lookup_filter_None. by left. Qed.

Lemma purged_is_Some (d : string) (k : path) (f : filesystem) :
  is_Some (purge d f !! k) → is_Some (f !! k).
Proof.
  intros [x Hx]. apply map_lookup_filter_Some in Hx as [Hx _]. eauto.
Qed.

Lemma ls_purged (d : string) (f : filesystem) : ls d (purge d f) = [].
Proof. apply ls_nil. intros k Hk. by apply purged_lookup. Qed.

Lemma path_exists_true (p : path) (f : filesystem) :
  path_exists p f = true ↔ is_Some (f !! p).
Proof.
  unfold path_exists. destruct (f !! p) as [x|].
  - split; eauto.
  - split; [done|]. by intros [? ?].
Qed.

Lemma path_exists_false (p : path) (f : filesystem) :
  path_exists p f = false ↔ f !! p = None.
Proof. unfold path_exists. by destruct (f !! p). Qed.

(** What [move_entry] and [write_product] leave as it is. *)

Lemma move_entry_lookup_ne (src dst k : path) (f : filesystem) :
  k ≠ src → k ≠ dst → move_entry src dst f !! k = f !! k.
Proof.
  intros Hs Hd. unfold move_entry. destruct (f !! src); [|done].
  by rewrite lookup_insert_ne, lookup_delete_ne.
Qed.

Lemma move_entry_is_Some (src dst k : path) (f : filesystem) :
  k ≠ src → is_Some (f !! k) → is_Some (move_entry src dst f !! k).
Proof.
  intros Hs Hk. unfold move_entry. destruct (f !! src); [|done].
  destruct (decide (dst = k)) as [->|].
  - rewrite lookup_insert_eq. eauto.
  - by rewrite lookup_insert_ne, lookup_delete_ne.
Qed.

Lemma move_entry_None (src dst k : path) (f : filesystem) :
  k ≠ dst → f !! k = None → move_entry src dst f !! k = None.
Proof.
  intros Hd Hk. unfold move_entry. destruct (f !! src); [|done].
  rewrite lookup_insert_ne by done. destruct (decide (src = k)) as [->|].
  - apply lookup_delete_eq.
  - by rewrite lookup_delete_ne.
Qed.

Lemma move_entry_dst (src dst : path) (n : node) (f : filesystem) :
  f !! src = Some n → move_entry src dst f !! dst = Some n.
Proof. intros Hs. unfold move_entry. rewrite Hs. apply lookup_insert_eq. Qed.

Lemma write_product_lookup_ne (out k : path) (r : gpt_result) (f : filesystem) :
  k ≠ dim out → k ≠ data out → write_product out r f !! k = f !! k.
Proof.
  intros H1 H2. unfold write_product.
  destruct (writes_data r), (writes_dim r);
    by rewrite ?lookup_insert_ne by done.
Qed.


Lemma write_product_written (out : path) (r : gpt_result) (f : filesystem) :
  writes_dim r = true → is_Some (writes_data r) →
  is_Some (write_product out r f !! dim out) ∧
  is_Some (write_product out r f !! data out).
Proof.
  intros Hd [s Hs]. unfold write_product. rewrite Hd, Hs. split.
  - destruct (decide (data out = dim out)) as [->|].
    + rewrite lookup_insert_eq. eauto.
    + rewrite lookup_insert_ne, lookup_insert_eq by done. eauto.
  - rewrite lookup_insert_eq. eauto.
Qed.


(** ** Failure cleanup *)

(** What holds when [burst_to_ard] returns from a failure it detected, or
    when the purge of the temp directory fails. *)
Lemma abort_if_failed_wp d rc (Qv : unit → World → Prop) Qr Qe w :
  (rc = 0%Z → Qv tt w) →
  (rc ≠ 0%Z → Qr rc {| fs := purge d (fs w); trace := trace w |}) →
  (rc ≠ 0%Z → Qe (Error IoError) w) →
  wp (abort_if_failed d rc) Qv Qr Qe w.
Proof.
  intros Hv Hr He. unfold abort_if_failed, remove_folder_content.
  destruct (Z.eqb_spec rc 0) as [->|Hrc]; simpl; [by apply Hv|].
  apply wp_bind, wp_io_op; intros _; [by apply Hr|by apply He].
Qed.

Lemma maintains_abort_if_failed (I : World → Prop) R d rc :
  (∀ w, I w → rc ≠ 0%Z →
        R rc {| fs := purge d (fs w); trace := trace w |}) →
  maintains I R (abort_if_failed d rc).
Proof. intros H w Hw. apply abort_if_failed_wp; auto. Qed.

Lemma write_marker_or_purge_wp a rc (Qv : Empty_set → World → Prop) Qr Qe w :
  (rc = 0%Z →
   Qr 0%Z {| fs := <[check_file a := RegularFile]> (fs w);
             trace := trace w |}) →
  (rc ≠ 0%Z →
   Qr rc {| fs := purge (out_dir a) (purge (temp_dir a) (fs w));
            trace := trace w |} ∧
   Qe (Error IoError) w ∧
   Qe (Error IoError) {| fs := purge (temp_dir a) (fs w);
                         trace := trace w |}) →
  wp (write_marker_or_purge a rc) Qv Qr Qe w.
Proof.
  intros H0 Hne. unfold write_marker_or_purge, remove_folder_content.
  destruct (Z.eqb_spec rc 0) as [->|Hrc]; [by apply H0|].
  destruct (Hne Hrc) as (Hr & He1 & He2).
  apply wp_bind, wp_bind, wp_io_op; intros _; [|done].
  apply wp_io_op; intros _; [|done]. done.
Qed.

Section Cleanup.
Context (gpt : command → filesystem → gpt_result) (integrity_error : positive).
Context (a : burst_args).

Lemma abort_if_failed_cleaned rc :
  maintains (λ _, True) (cleaned a) (abort_if_failed (temp_dir a) rc).
Proof.
  apply maintains_abort_if_failed. intros w _ Hrc.
  split; [done|]. apply ls_purged.
Qed.

Lemma stages_cleaned :
  maintains (λ _, True) (cleaned a) (stages gpt integrity_error a).
Proof.
  unfold_blocks.
  maintains_structure ltac:(idtac;
    first [ apply abort_if_failed_cleaned
          | apply maintains_call_calibration; done
          | apply maintains_call_run; done
          | apply maintains_io_op; done ]).
Qed.

End Cleanup.


(** ** The completion marker is written by the final test only *)

Lemma run_command_lookup_ne gpt c l w (k : path) :
  k ≠ l → k ≠ dim (cmd_output c) → k ≠ data (cmd_output c) →
  fs (run_command gpt c l w).2 !! k = fs w !! k.
Proof.
  intros Hl Hd Hp. simpl.
  by rewrite write_product_lookup_ne, lookup_insert_ne.
Qed.


Lemma delete_lookup_None (p k : path) (f : filesystem) :
  f !! k = None → delete p f !! k = None.
Proof. intros Hk. apply lookup_delete_None. by right. Qed.

Section Marker.
Context (gpt : command → filesystem → gpt_result) (integrity_error : positive).
Context (a : burst_args).

Lemma abort_if_failed_no_marker rc :
  maintains (no_marker a) (failed_no_marker a) (abort_if_failed (temp_dir a) rc).
Proof.
  apply maintains_abort_if_failed. intros w Hw Hrc.
  split; [done|]. by apply purged_lookup_None.
Qed.

Lemma stages_no_marker :
  maintains (no_marker a) (failed_no_marker a) (stages gpt integrity_error a).
Proof.
  unfold_blocks.
  maintains_structure ltac:(idtac;
    lazymatch goal with
    | |- maintains _ _ (abort_if_failed _ _) =>
        apply abort_if_failed_no_marker
    | |- maintains _ _ (call (_calibration _ _ _ _ _)) =>
        apply maintains_call_calibration; intros g w Hw;
        unfold no_marker; rewrite run_command_lookup_ne; [done|path_neq..]
    | |- maintains _ _ (call _) =>
        apply maintains_call_run; intros w Hw;
        unfold no_marker; rewrite run_command_lookup_ne; [done|path_neq..]
    | |- maintains _ _ (io_op _ _) =>
        apply maintains_io_op; intros w Hw; unfold no_marker; simpl;
        repeat first [ apply delete_lookup_None
                     | apply move_entry_None; [path_neq|] ];
        exact Hw
    end).
Qed.

(** Started without a marker, [burst_to_ard] leaves one exactly when it
    returns 0. *)
Lemma burst_to_ard_marker w :
  no_marker a w →
  wp (burst_to_ard gpt integrity_error a) (λ _ _, False)
     (λ rc w', is_Some (fs w' !! check_file a) ↔ rc = 0%Z)
     (λ _ w', no_marker a w') w.
Proof.
  intros Hw. unfold burst_to_ard, burst_to_ard_of. apply wp_bind.
  eapply wp_mono; [by apply stages_no_marker|..].
  - intros rc w' Hw'. apply write_marker_or_purge_wp.
    + intros _. simpl. rewrite lookup_insert_eq. split; eauto.
    + intros Hrc. split_and!; [|done|by apply purged_lookup_None].
      simpl. split; [|done].
      rewrite purged_lookup_None; [by intros [? ?]|].
      by apply purged_lookup_None.
  - intros rc w' [Hrc Hw']. simpl. unfold no_marker in Hw'. rewrite Hw'.
    split; [by intros [? ?]|done].
  - done.
Qed.
End Marker.

(** ** The log files survive *)




Section Logs.
Context (gpt : command → filesystem → gpt_result) (integrity_error : positive).
Context (a : burst_args).
Hypothesis Hdirs : dir_under (temp_dir a) (out_dir a) = false.






End Logs.


(** ** Stepping through a body *)

Lemma wp_call_run gpt c l (Qv : Z → World → Prop) Qr Qe w :
  Qv (exit_code (gpt c (fs w))) (run_command gpt c l w).2 →
  wp (call (rc <- run_command gpt c l;; return_ rc)) Qv Qr Qe w.
Proof. done. Qed.

Lemma wp_call_calibration gpt infile outfile l pt
    (Qv : Z → World → Prop) Qr Qe w :
  match calibration_graph pt with
  | Some g =>
      Qv (exit_code (gpt (Calibrate g infile outfile) (fs w)))
         (run_command gpt (Calibrate g infile outfile) l w).2
  | None => Qe (SysExit 121) w
  end →
  wp (call (_calibration gpt infile outfile l pt)) Qv Qr Qe w.
Proof.
  unfold calibration_graph, _calibration.
  destruct (String.eqb pt "RTC"); [done|].
  destruct (String.eqb pt "GTCgamma"); [done|].
  by destruct (String.eqb pt "GTCsigma").
Qed.

Lemma wp_check_out_dimap code p t (Qv : Z → World → Prop) Qr Qe w :
  (verify_dimap p t (fs w) = true → Qv 0%Z w) →
  (verify_dimap p t (fs w) = false → Qv (Z.pos code) w) →
  wp (check_out_dimap code p t) Qv Qr Qe w.
Proof.
  intros Ht Hf. unfold check_out_dimap, wp, bind, get_fs, ret. simpl.
  destruct (verify_dimap p t (fs w)); auto.
Qed.

(** One step of symbolic execution of a body. *)
Ltac wp_step :=
  lazymatch goal with
  | |- wp (bind _ _) _ _ _ _ => apply wp_bind
  | |- wp (ret _) _ _ _ _ => apply wp_ret
  | |- wp (return_ _) _ _ _ _ => apply wp_return
  | |- wp (call (_calibration _ _ _ _ _)) _ _ _ _ => apply wp_call_calibration
  | |- wp (call _) _ _ _ _ => apply wp_call_run
  | |- wp (modify_fs _) _ _ _ _ => apply wp_modify_fs
  | |- wp (io_op _ _) _ _ _ _ => apply wp_io_op; intros ?
  | |- wp get_fs _ _ _ _ => apply wp_get_fs
  | |- wp (abort_if_failed _ _) _ _ _ _ =>
      apply abort_if_failed_wp; intros ?
  | |- wp (check_out_dimap _ _ _) _ _ _ _ =>
      apply wp_check_out_dimap; intros ?
  | |- wp (if ?b then _ else _) _ _ _ _ => destruct b eqn:?
  | |- wp (match ?x with (_, _) => _ end) _ _ _ _ => destruct x
  end; cbv beta; cbn [negb].

Ltac wp_steps := repeat wp_step.

(** ** The invocations of a run follow the schedule *)

Lemma extends_by_nil w : extends_by [] w w.
Proof. unfold extends_by. by rewrite app_nil_r. Qed.

Lemma extends_by_trans p1 p2 w w1 w2 :
  extends_by p1 w w1 → extends_by p2 w1 w2 → extends_by (p1 ++ p2) w w2.
Proof. unfold extends_by. intros H1 H2. by rewrite H2, H1, app_assoc. Qed.

Lemma partially_complete p w w' : extends_by p w w' → partially p w w'.
Proof. intros H. by exists p. Qed.

Lemma partially_more p1 p2 w w' :
  partially p1 w w' → partially (p1 ++ p2) w w'.
Proof.
  intros (q & Hq & Hext). exists q. split; [|done]. by apply prefix_app_r.
Qed.

Lemma partially_trans p1 p2 w w1 w2 :
  extends_by p1 w w1 → partially p2 w1 w2 → partially (p1 ++ p2) w w2.
Proof.
  intros H1 (q & Hq & H2). exists (p1 ++ q). split.
  - by apply prefix_app.
  - by eapply extends_by_trans.
Qed.

Lemma follows_bind {A B} p1 p2 (V1 : A → Prop) (V2 : B → Prop)
    (m : M A) (k : A → M B) w :
  follows p1 V1 m w →
  (∀ v w1, V1 v → follows p2 V2 (k v) w1) →
  follows (p1 ++ p2) V2 (bind m k) w.
Proof.
  intros Hm Hk. unfold follows. apply wp_bind.
  eapply wp_mono; [exact Hm|..].
  - intros v w1 [Hv H1]. eapply wp_mono; [by apply Hk|..].
    + intros v2 w2 [Hv2 H2]. split; [done|]. by eapply extends_by_trans.
    + intros rc w2 H2. by eapply partially_trans.
    + intros c w2 H2. by eapply partially_trans.
  - intros rc w1 H1. by apply partially_more.
  - intros c w1 H1. by apply partially_more.
Qed.

Lemma follows_silent {A} (V : A → Prop) (m : M A) w :
  wp m (λ v w', V v ∧ trace w' = trace w) (λ _ w', trace w' = trace w)
       (λ _ w', trace w' = trace w) w →
  follows [] V m w.
Proof.
  assert (∀ w', trace w' = trace w → extends_by [] w w') as Hsame.
  { intros w' Ht. unfold extends_by. by rewrite Ht, app_nil_r. }
  intros H. eapply wp_mono; [exact H|..].
  - intros v w' [Hv Ht]. split; [done|]. by apply Hsame.
  - intros rc w' Ht. by apply partially_complete, Hsame.
  - intros x w' Ht. by apply partially_complete, Hsame.
Qed.

(** Closes the goals that [wp_steps] leaves of a [follows] statement: the
    invocations made are read off the trace. *)
Ltac follows_leaf :=
  lazymatch goal with
  | |- partially _ _ _ =>
      eexists; split;
      [| unfold extends_by; simpl; rewrite ?fmap_app, <- ?app_assoc; simpl;
         reflexivity ];
      by eexists
  | |- _ ∧ extends_by _ _ _ =>
      split;
      [ first [ done | by f_equal | idtac ]
      | unfold extends_by; simpl; rewrite ?fmap_app, <- ?app_assoc; simpl;
        rewrite ?app_nil_r; reflexivity ]
  end.

Section Followed.
Context (gpt : command → filesystem → gpt_result) (integrity_error : positive).
Context (a : burst_args).

Lemma import_master_follows w :
  follows (schedule_import a (path_exists (dim (master_import a)) (fs w)))
          (λ _, True) (import_master gpt a) w.
Proof.
  unfold follows, import_master, os_path_exists, schedule_import.
  wp_step. wp_step. wp_step.
  destruct (path_exists (dim (master_import a)) (fs w)); cbn [negb];
    wp_steps; follows_leaf.
Qed.

Lemma ha_alpha_branch_follows w :
  follows (schedule_ha_alpha a) (λ _, True)
          (ha_alpha_branch gpt integrity_error a) w.
Proof.
  unfold follows, ha_alpha_branch, schedule_ha_alpha, move_dimap,
    delete_dimap.
  wp_steps; follows_leaf.
Qed.

Lemma calibrate_follows w :
  follows (schedule_calibrate a) (λ v, v = (0%Z, temp_product a "_cal"))
          (calibrate gpt a) w.
Proof.
  unfold follows, calibrate, schedule_calibrate, delete_dimap.
  wp_step. wp_step.
  destruct (calibration_graph (product_type (ard a)));
    [|apply partially_complete, extends_by_nil].
  cbv beta. wp_steps; follows_leaf.
Qed.

Lemma speckle_filtering_follows w :
  follows (schedule_speckle a) (λ v, v = (0%Z, out_cal_speckle a))
          (speckle_filtering gpt a 0 (temp_product a "_cal")) w.
Proof.
  unfold follows, speckle_filtering, schedule_speckle, out_cal_speckle,
    delete_dimap.
  wp_steps; follows_leaf.
Qed.

Lemma terrain_flattening_follows w :
  follows (schedule_flattening a) (λ v, v = (0%Z, out_cal_rtc a))
          (terrain_flattening gpt a 0 (out_cal_speckle a)) w.
Proof.
  unfold follows, terrain_flattening, schedule_flattening, out_cal_rtc,
    delete_dimap.
  wp_steps; follows_leaf.
Qed.

Lemma linear_to_db_follows w :
  follows (schedule_db a) (λ v, v = (0%Z, out_cal_db a))
          (linear_to_db gpt a 0 (out_cal_rtc a)) w.
Proof.
  unfold follows, linear_to_db, schedule_db, out_cal_db, delete_dimap.
  wp_steps; follows_leaf.
Qed.

Lemma geocode_backscatter_follows w :
  follows (schedule_geocode a) (λ rc, rc = 0%Z)
          (geocode_backscatter gpt integrity_error a (out_cal_db a)) w.
Proof.
  unfold follows, geocode_backscatter, schedule_geocode, move_dimap.
  wp_steps; follows_leaf.
Qed.

Lemma ls_mask_follows w :
  follows (schedule_ls_mask a) (λ rc, rc = 0%Z)
          (ls_mask gpt integrity_error a 0 (out_cal_db a)) w.
Proof.
  unfold follows, ls_mask, schedule_ls_mask, move_dimap.
  wp_steps; follows_leaf.
Qed.

Lemma coherence_branch_follows w :
  follows (schedule_coherence a) (λ rc, rc = 0%Z)
          (coherence_branch gpt integrity_error a 0) w.
Proof.
  unfold follows, coherence_branch, coherence_branch_of, schedule_coherence, move_dimap,
    delete_dimap.
  wp_steps; follows_leaf.
Qed.

(** The invocations of [stages] are the schedule, or a first part of it
    when it returns or exits; when it falls through, the return code the
    final test reads is 0. *)
Lemma stages_follows w :
  follows (schedule a (path_exists (dim (master_import a)) (fs w)))
          (λ rc, rc = 0%Z) (stages gpt integrity_error a) w.
Proof.
  unfold stages, stages_of, schedule.
  eapply follows_bind; [apply import_master_follows|intros _ w1 _].
  eapply follows_bind; [apply ha_alpha_branch_follows|intros _ w2 _].
  eapply follows_bind; [apply calibrate_follows|intros ? w3 ->].
  eapply follows_bind; [apply speckle_filtering_follows|intros ? w4 ->].
  eapply follows_bind; [apply terrain_flattening_follows|intros ? w5 ->].
  eapply follows_bind; [apply linear_to_db_follows|intros ? w6 ->].
  eapply follows_bind; [apply geocode_backscatter_follows|intros ? w7 ->].
  eapply follows_bind; [apply ls_mask_follows|intros ? w8 ->].
  apply (follows_bind [] (schedule_coherence a) (λ _, True)).
  - apply follows_silent. unfold delete_dimap. by apply wp_io_op.
  - intros _ w9 _. apply coherence_branch_follows.
Qed.
End Followed.


(** ** Running [burst_to_ard] *)

Section Runs.
Context (gpt : command → filesystem → gpt_result) (integrity_error : positive).
Context (a : burst_args).

(** Every return of [stages] carries a nonzero code. *)
Lemma stages_returns_nonzero w :
  wp (stages gpt integrity_error a) (λ _ _, True) (λ rc _, rc ≠ 0%Z)
     (λ _ _, True) w.
Proof.
  eapply wp_mono; [by apply stages_cleaned|done|by intros ?? [? ?]|done].
Qed.

(** What a run does to the trace: a first part of the schedule, and all
    of it when the run returns 0. *)
Lemma burst_to_ard_follows w :
  let s := schedule a (path_exists (dim (master_import a)) (fs w)) in
  wp (burst_to_ard gpt integrity_error a) (λ _ _, False)
     (λ rc w', partially s w w' ∧ (rc = 0%Z → extends_by s w w'))
     (λ _ w', partially s w w') w.
Proof.
  intros s. unfold burst_to_ard, burst_to_ard_of. apply wp_bind.
  eapply wp_mono;
    [exact (wp_and _ _ _ _ _ _ _ _ (stages_follows gpt integrity_error a w)
                   (stages_returns_nonzero w))|..].
  - intros rc w' [[-> Hext] _]. apply write_marker_or_purge_wp; [|done].
    intros _. split; [by apply partially_complete|done].
  - intros rc w' [Hpart Hrc]. split; [done|]. by intros ->.
  - by intros c w' [Hpart _].
Qed.

End Runs.

Lemma wp_run gpt code a f (Q : outcome → World → Prop) :
  wp (burst_to_ard gpt code a) (λ _ _, False)
     (λ rc, Q (Returned rc)) (λ x, Q (Ended x)) {| fs := f; trace := [] |} →
  Q (run gpt code a f).1 (run gpt code a f).2.
Proof. apply wp_exec. Qed.




(** C2 fails on the code: the exit code of [_terrain_correction] is thrown
    away.  Here the terrain correction of the backscatter product exits
    with 1 and writes nothing, a backscatter product of an earlier run is
    still in the temp directory: the check passes on it, the layover/shadow
    mask stage is attempted, and the run writes the marker and returns 0. *)
Lemma C2_terrain_correction_exit_code_ignored :
  let a := Examples.with_ls_mask in
  let r := run Examples.gpt_tc_failing 1 a Examples.stale_backscatter in
  r.1 = Returned 0 ∧
  cmd_log <$> trace r.2 = schedule a false ∧
  ev_return_code <$> trace r.2 = [0; 0; 1; 0]%Z ∧
  is_Some (fs r.2 !! check_file a).
Proof. vm_compute. split_and!; [done..|]. eauto. Qed.

(** C3, as stated, does not hold: a marker that is in the output directory
    before the run is still there after a run that fails. *)
Lemma C3_counterexample :
  let a := Examples.plain in
  let r := run Examples.gpt_failing 1 a Examples.stale_marker in
  r.1 = Returned 1 ∧ is_Some (fs r.2 !! check_file a).
Proof. vm_compute. split; [done|]. eauto. Qed.

(** C3, amended: for every run started with no completion marker in the
    output directory, the marker is in the output directory after the run
    if and only if [burst_to_ard] returned 0. *)
Theorem C3_marker_iff_returned_zero gpt code a f :
  f !! check_file a = None →
  is_Some (fs (run gpt code a f).2 !! check_file a) ↔
  (run gpt code a f).1 = Returned 0.
Proof.
  intros Hf.
  apply (wp_run gpt code a f
           (λ o w', is_Some (fs w' !! check_file a) ↔ o = Returned 0)).
  eapply wp_mono; [by apply burst_to_ard_marker|done|..].
  - intros rc w' ->. split; [by intros ->|by intros [= ->]].
  - intros c w' Hw'. unfold no_marker in Hw'. rewrite Hw'.
    split; [by intros [? ?]|done].
Qed.

Lemma C3_witness :
  let a := Examples.plain in
  is_Some (fs (run Examples.gpt_ok 1 a Examples.empty_disk).2 !! check_file a) ↔
  (run Examples.gpt_ok 1 a Examples.empty_disk).1 = Returned 0.
Proof.
  apply (C3_marker_iff_returned_zero
           Examples.gpt_ok 1 Examples.plain Examples.empty_disk).
  reflexivity.
Defined.

(** C9: on every path of [burst_to_ard] that reaches the final test, the
    return code read there is 0; so the purge of both directories is never
    run: the marker is written and 0 is returned. *)
Theorem C9_final_test_reads_zero gpt code a w rc w' :
  stages gpt code a w = (Val rc, w') →
  rc = 0%Z ∧
  burst_to_ard gpt code a w =
    (Ret 0, {| fs := <[check_file a := RegularFile]> (fs w');
               trace := trace w' |}).
Proof.
  intros Hst.
  assert (rc = 0%Z) as ->.
  { by destruct (wp_elim _ _ _ _ _ _ _ (stages_follows gpt code a w) Hst). }
  split; [done|]. unfold stages in Hst.
  unfold burst_to_ard, burst_to_ard_of, bind. by rewrite Hst.
Qed.

Lemma C9_witness :
  let a := Examples.with_coherence in
  let w := {| fs := Examples.empty_disk; trace := [] |} in
  let w' := (stages Examples.gpt_ok 1 a w).2 in
  0%Z = 0%Z ∧
  burst_to_ard Examples.gpt_ok 1 a w =
    (Ret 0, {| fs := <[check_file a := RegularFile]> (fs w');
               trace := trace w' |}).
Proof.
  apply (C9_final_test_reads_zero Examples.gpt_ok 1 Examples.with_coherence).
  vm_compute. reflexivity.
Defined.

(** C10: for a product type other than RTC, GTCgamma and GTCsigma,
    [_calibration] ends the process with [sys.exit(121)] before it invokes
    the engine; [burst_to_ard], once it reaches the calibration, does not
    return any code and cleans nothing up: the process exits in the very
    world in which the calibration was called. *)
Theorem C10_unknown_product_type_exits gpt code pt :
  pt ≠ "RTC" → pt ≠ "GTCgamma" → pt ≠ "GTCsigma" →
  (∀ infile outfile logfile w,
     _calibration gpt infile outfile logfile pt w = (Exit 121, w)) ∧
  (∀ a w w1,
     product_type (ard a) = pt →
     (import_master gpt a;; ha_alpha_branch gpt code a) w = (Val tt, w1) →
     exec (burst_to_ard gpt code a) w = (Exited 121, w1)).
Proof.
  intros H1 H2 H3.
  assert (∀ infile outfile logfile w,
            _calibration gpt infile outfile logfile pt w = (Exit 121, w))
    as Hcal.
  { intros. unfold _calibration, bind.
    apply String.eqb_neq in H1, H2, H3. by rewrite H1, H2, H3. }
  split; [done|]. intros a w w1 Hpt Hpre.
  unfold exec, burst_to_ard, burst_to_ard_of, stages, stages_of, bind in *.
  destruct (import_master gpt a w) as [[[]|?|?] w0]; [|done..].
  destruct (ha_alpha_branch gpt code a w0) as [[[]|?|?] w2]; [|done..].
  injection Hpre as ->.
  unfold calibrate, bind, call. by rewrite Hpt, Hcal.
Qed.

Lemma C10_witness :
  let a := Examples.unknown_type in
  let w := {| fs := Examples.empty_disk; trace := [] |} in
  let w1 := (import_master Examples.gpt_ok a w).2 in
  _calibration Examples.gpt_ok (dim (master_import a))
               (temp_product a "_cal")
               (stage_log a (master_burst_id a) "cal") "GTC" w1 =
    (Exit 121, w1) ∧
  exec (burst_to_ard Examples.gpt_ok 1 a) w = (Exited 121, w1) ∧
  ls (temp_dir a) (fs w1) ≠ [].
Proof.
  destruct (C10_unknown_product_type_exits Examples.gpt_ok 1 "GTC")
    as [Hcal Hrun]; [discriminate..|].
  split_and!.
  - apply Hcal.
  - apply Hrun; [reflexivity|]. vm_compute. reflexivity.
  - vm_compute. discriminate.
Defined.


(** ** What comes first *)

Lemma trace_from_refl t w : trace w = t → trace_from t w.
Proof. intros <-. exists []. by rewrite app_nil_r. Qed.

Lemma trace_from_run_command gpt c l t w :
  trace_from t w → trace_from t (run_command gpt c l w).2.
Proof.
  intros [evs Hw]. eexists. simpl. rewrite Hw, <- app_assoc. reflexivity.
Qed.

(** Proves [maintains (trace_from t) (λ _, trace_from t) m] for a body [m]
    made of the blocks of [burst_to_ard]: the trace only grows. *)
Ltac trace_grows :=
  unfold_blocks;
  maintains_structure ltac:(idtac;
    lazymatch goal with
    | |- maintains _ _ (abort_if_failed _ _) =>
        let w := fresh in let Hw := fresh in
        apply maintains_abort_if_failed; intros w Hw _; exact Hw
    | |- maintains _ _ (call (_calibration _ _ _ _ _)) =>
        apply maintains_call_calibration; intros ? ?;
        apply trace_from_run_command
    | |- maintains _ _ (call _) =>
        apply maintains_call_run; intros ?; apply trace_from_run_command
    | |- maintains _ _ (io_op _ _) =>
        apply maintains_io_op; intros ? Hw; exact Hw
    | |- maintains _ _ (modify_fs _) =>
        apply maintains_modify_fs; intros ? Hw; exact Hw
    | |- maintains _ _ (return_ _) =>
        apply maintains_return; intros ? Hw; exact Hw
    end).

Lemma wp_snd {A} (m : M A) (Q : World → Prop) w :
  wp m (λ _, Q) (λ _, Q) (λ _, Q) w → Q (m w).2.
Proof. unfold wp. by destruct (m w) as [[x|rc|c] w']. Qed.

Lemma import_master_skipped gpt a w :
  path_exists (dim (master_import a)) (fs w) = true →
  import_master gpt a w = (Val tt, w).
Proof.
  intros Hp. unfold import_master, os_path_exists, bind, get_fs, ret.
  by rewrite Hp.
Qed.

(** The members of the schedule that are imports. *)
Ltac unfold_schedule :=
  unfold schedule_import, schedule_ha_alpha, schedule_calibrate,
    schedule_speckle, schedule_flattening, schedule_db, schedule_geocode,
    schedule_ls_mask, schedule_coherence in *.

(** Splits a hypothesis [x ∈ schedule a present] into one case for each
    invocation in the schedule. *)
Ltac in_schedule H :=
  unfold schedule in H; rewrite !elem_of_app in H; destruct_or! H;
  unfold_schedule; repeat case_match; decompose_list_elem_of; simplify_eq.

Lemma schedule_imports a present c l :
  (c, l) ∈ schedule a present → is_import c = true →
  (present = false ∧ c = import_command a) ∨
  (coherence a = true ∧ c = slave_import_command a).
Proof. intros Hin Himp. in_schedule Hin; try discriminate; auto. Qed.

Lemma run_in_schedule gpt code a f ev :
  ev ∈ trace (run gpt code a f).2 →
  cmd_log ev ∈ schedule a (path_exists (dim (master_import a)) f).
Proof.
  apply (wp_run gpt code a f
           (λ _ w', ev ∈ trace w' → cmd_log ev ∈ schedule a _)).
  assert (∀ w', partially (schedule a (path_exists (dim (master_import a)) f))
                          {| fs := f; trace := [] |} w' →
                ev ∈ trace w' →
                cmd_log ev ∈ schedule a (path_exists (dim (master_import a)) f))
    as Hpart.
  { intros w' (q & Hq & Hext) Hev. unfold extends_by in Hext. simpl in Hext.
    eapply elem_of_prefix; [|exact Hq]. rewrite <- Hext.
    by apply list_elem_of_fmap_2. }
  eapply wp_mono; [apply burst_to_ard_follows|done|..].
  - intros rc w' [H _]. by apply Hpart.
  - intros c w' H. by apply Hpart.
Qed.

(** C4, as stated, does not hold: with both imports already on disk, the
    run with the coherence branch skips the import of the master and still
    invokes the import of the slave. *)
Lemma C4_counterexample :
  let a := Examples.with_coherence in
  let r := run Examples.gpt_ok 1 a Examples.imports_on_disk in
  dimap_exists (slave_import a) Examples.imports_on_disk = true ∧
  r.1 = Returned 0 ∧
  filter (λ c, is_import c = true) (ev_command <$> trace r.2) =
    [slave_import_command a].
Proof. vm_compute. done. Qed.

(** C4, amended: when the coherence branch runs, its first action is to
    invoke the import of the slave burst, whether or not the output of that
    import is already on disk; only the import of the master is skipped
    when its output exists. *)
Theorem C4_slave_import_always_invoked gpt code a rc w :
  coherence a = true →
  trace_from
    (trace w ++
     [{| ev_command := slave_import_command a;
         ev_logfile := stage_log a (slave_burst_id a) "import";
         ev_return_code := exit_code (gpt (slave_import_command a) (fs w)) |}])
    (coherence_branch gpt code a rc w).2.
Proof.
  intros Hcoh. apply wp_snd. unfold coherence_branch, coherence_branch_of. rewrite Hcoh.
  apply wp_bind, wp_call_run. cbv beta.
  match goal with |- wp _ (λ _ w0, trace_from ?t w0) _ _ _ =>
    apply (maintains_wp (trace_from t) (λ _, trace_from t)); [|by apply trace_from_refl|done..]
  end.
  trace_grows.
Qed.

Lemma C4_witness :
  let a := Examples.with_coherence in
  let w := {| fs := Examples.imports_on_disk; trace := [] |} in
  path_exists (dim (slave_import a)) (fs w) = true ∧
  trace_from
    [{| ev_command := slave_import_command a;
        ev_logfile := stage_log a (slave_burst_id a) "import";
        ev_return_code := 0 |}]
    (coherence_branch Examples.gpt_ok 1 a 0 w).2.
Proof.
  split; [reflexivity|].
  apply (C4_slave_import_always_invoked Examples.gpt_ok 1
           Examples.with_coherence 0
           {| fs := Examples.imports_on_disk; trace := [] |}).
  reflexivity.
Defined.


Lemma wp_value {A} (m : M A) (Qv : A → World → Prop) Qr Qe w x w' :
  m w = (Val x, w') → Qv x w' → wp m Qv Qr Qe w.
Proof. unfold wp. by intros ->. Qed.

Lemma trace_from_head ev w :
  trace_from [ev] w → head (ev_command <$> trace w) = Some (ev_command ev).
Proof. by intros [evs ->]. Qed.

(** The first invocation of a run that finds the master import on disk. *)
Lemma first_invocation_after_import gpt code a f :
  path_exists (dim (master_import a)) f = true →
  head (ev_command <$> trace (run gpt code a f).2) =
    if H_A_Alpha (ard a) then
      Some (Halpha (remove_pol_speckle (ard a)) (dim (master_import a))
                   (temp_product a "_h"))
    else
      (λ g, Calibrate g (dim (master_import a)) (temp_product a "_cal"))
        <$> calibration_graph (product_type (ard a)).
Proof.
  intros Hp.
  apply (wp_run gpt code a f (λ _ w', head (ev_command <$> trace w') = _)).
  unfold burst_to_ard, burst_to_ard_of, stages, stages_of. do 2 apply wp_bind.
  eapply wp_value; [by apply import_master_skipped|].
  apply wp_bind. unfold ha_alpha_branch at 1.
  destruct (H_A_Alpha (ard a)).
  - apply wp_bind, wp_call_run. cbv beta.
    match goal with |- wp _ _ _ _ (run_command _ ?c ?l ?w).2 =>
      set (ev := {| ev_command := c; ev_logfile := l;
                    ev_return_code := exit_code (gpt c (fs w)) |})
    end.
    assert (∀ w', trace_from [ev] w' →
                  head (ev_command <$> trace w') = Some (ev_command ev))
      as Hhead by apply trace_from_head.
    apply (maintains_wp (trace_from [ev]) (λ _, trace_from [ev]));
      [trace_grows|by apply trace_from_refl| |by auto..].
    intros _ w1 Hw1.
    apply (maintains_wp (trace_from [ev]) (λ _, trace_from [ev]));
      [trace_grows|done| |by auto..].
    intros rc w2 Hw2.
    apply (maintains_wp (trace_from [ev]) (λ _, trace_from [ev]));
      [trace_grows|done|by auto..].
  - apply wp_ret, wp_bind. unfold calibrate at 1.
    apply wp_bind, wp_call_calibration.
    destruct (calibration_graph (product_type (ard a))) as [g|]; [|done].
    match goal with |- _ _ (run_command _ ?c ?l ?w).2 =>
      set (ev := {| ev_command := c; ev_logfile := l;
                    ev_return_code := exit_code (gpt c (fs w)) |})
    end.
    assert (∀ w', trace_from [ev] w' →
                  head (ev_command <$> trace w') = Some (ev_command ev))
      as Hhead by apply trace_from_head.
    apply (maintains_wp (trace_from [ev]) (λ _, trace_from [ev]));
      [trace_grows|by apply trace_from_refl| |by auto..].
    intros [rc p] w1 Hw1.
    apply (maintains_wp (trace_from [ev]) (λ _, trace_from [ev]));
      [trace_grows|done| |by auto..].
    intros rc' w2 Hw2.
    apply (maintains_wp (trace_from [ev]) (λ _, trace_from [ev]));
      [trace_grows|done|by auto..].
Qed.

(** C5: when the output of the master import is on disk before the run,
    the import block changes nothing, no import of the master burst is
    invoked in the run (the only import it may invoke is that of the slave,
    in the coherence branch), and the first stage the run invokes is the
    next one: the H-A-alpha decomposition when requested, else the
    calibration. *)
Theorem C5_master_import_skipped_when_on_disk gpt code a f :
  path_exists (dim (master_import a)) f = true →
  let w := {| fs := f; trace := [] |} in
  let commands := ev_command <$> trace (run gpt code a f).2 in
  import_master gpt a w = (Val tt, w) ∧
  (∀ c, c ∈ commands → is_import c = true →
        coherence a = true ∧ c = slave_import_command a) ∧
  head commands =
    if H_A_Alpha (ard a) then
      Some (Halpha (remove_pol_speckle (ard a)) (dim (master_import a))
                   (temp_product a "_h"))
    else
      (λ g, Calibrate g (dim (master_import a)) (temp_product a "_cal"))
        <$> calibration_graph (product_type (ard a)).
Proof.
  intros Hp w commands. split_and!.
  - by apply import_master_skipped.
  - intros c Hc Himp. apply list_elem_of_fmap in Hc as (ev & -> & Hev).
    apply (run_in_schedule gpt code) in Hev. rewrite Hp in Hev.
    destruct (schedule_imports a true (ev_command ev) (ev_logfile ev))
      as [[? _]|?]; done.
  - by apply first_invocation_after_import.
Qed.

Lemma C5_witness :
  let a := Examples.with_coherence in
  let f := Examples.imports_on_disk in
  let w := {| fs := f; trace := [] |} in
  let commands := ev_command <$> trace (run Examples.gpt_ok 1 a f).2 in
  import_master Examples.gpt_ok a w = (Val tt, w) ∧
  (∀ c, c ∈ commands → is_import c = true →
        coherence a = true ∧ c = slave_import_command a) ∧
  head commands =
    Some (Calibrate CalGamma (dim (master_import a)) (temp_product a "_cal")).
Proof.
  apply (C5_master_import_skipped_when_on_disk
           Examples.gpt_ok 1 Examples.with_coherence Examples.imports_on_disk).
  reflexivity.
Defined.


(** ** The place of a stage in a run *)

Lemma commands_of_trace (t : list event) :
  ev_command <$> t = (cmd_log <$> t).*1.
Proof. by rewrite <- list_fmap_compose. Qed.


Lemma fmap_prefix {X Y} (g : X → Y) (l1 l2 : list X) :
  l1 `prefix_of` l2 → (g <$> l1) `prefix_of` (g <$> l2).
Proof. intros [k ->]. exists (g <$> k). by rewrite fmap_app. Qed.

(** The commands of a run are a first part of those of the schedule, and
    all of them when the run returns 0. *)
Lemma run_commands gpt code a f :
  let s := schedule a (path_exists (dim (master_import a)) f) in
  (ev_command <$> trace (run gpt code a f).2) `prefix_of` s.*1 ∧
  ((run gpt code a f).1 = Returned 0 →
   cmd_log <$> trace (run gpt code a f).2 = s).
Proof.
  intros s.
  apply (wp_run gpt code a f
           (λ o w', (ev_command <$> trace w') `prefix_of` s.*1 ∧
                    (o = Returned 0 → cmd_log <$> trace w' = s))).
  assert (∀ w', partially s {| fs := f; trace := [] |} w' →
                (ev_command <$> trace w') `prefix_of` s.*1) as Hpart.
  { intros w' (q & Hq & Hext). unfold extends_by in Hext. simpl in Hext.
    rewrite commands_of_trace, Hext. by apply fmap_prefix. }
  eapply wp_mono; [apply burst_to_ard_follows|done|..].
  - intros rc w' [H H0]. split; [by apply Hpart|].
    intros [= ->]. by apply H0.
  - intros c w' H. split; [by apply Hpart|done].
Qed.

(** Where a list has a single element that satisfies [P], a first part of
    it that has such an element is cut at the same place. *)
Lemma prefix_split_unique {X} (P : X → bool) (l1 : list X) c l2 A c' B :
  (l1 ++ c :: l2) `prefix_of` (A ++ c' :: B) → P c = true →
  (∀ x, x ∈ A → P x = false) → (∀ x, x ∈ B → P x = false) →
  l1 = A ∧ c = c'.
Proof.
  revert A. induction l1 as [|y l1 IH]; intros [|x A] [rest H] Hc HA HB;
    simpl in H; simplify_eq.
  - done.
  - rewrite HA in Hc by left. done.
  - rewrite HB in Hc; [done|]. rewrite <- app_assoc.
    apply elem_of_app. right. left.
  - destruct (IH A) as [-> ->]; [by eexists|done| |done|done].
    intros z Hz. apply HA. by right.
Qed.

Lemma schedule_around_flattening a present :
  schedule a present =
    (schedule_import a present ++ schedule_ha_alpha a ++
     schedule_calibrate a ++ schedule_speckle a) ++
    schedule_flattening a ++
    (schedule_db a ++ schedule_geocode a ++ schedule_ls_mask a ++
     schedule_coherence a).
Proof. unfold schedule. by rewrite <- !app_assoc. Qed.

Lemma schedule_around_geocoding a present :
  schedule a present =
    (schedule_import a present ++ schedule_ha_alpha a ++
     schedule_calibrate a ++ schedule_speckle a ++ schedule_flattening a ++
     schedule_db a) ++
    schedule_geocode a ++
    (schedule_ls_mask a ++ schedule_coherence a).
Proof. unfold schedule. by rewrite <- !app_assoc. Qed.

(** Goes through the members of some blocks of the schedule; [bool_decide]
    on two product paths is settled by their names. *)
Ltac in_blocks H :=
  rewrite ?fmap_app, ?elem_of_app in H; destruct_or? H;
  unfold_schedule; repeat case_match; simpl in H;
  decompose_list_elem_of; simplify_eq; simpl;
  try done; try (apply bool_decide_eq_false_2; path_neq).

Lemma no_flattening_before a present c :
  c ∈ (schedule_import a present ++ schedule_ha_alpha a ++
       schedule_calibrate a ++ schedule_speckle a).*1 →
  is_terrain_flattening c = false.
Proof. intros H. in_blocks H. Qed.

Lemma no_flattening_after a c :
  c ∈ (schedule_db a ++ schedule_geocode a ++ schedule_ls_mask a ++
       schedule_coherence a).*1 →
  is_terrain_flattening c = false.
Proof. intros H. in_blocks H. Qed.

Lemma no_geocoding_before a present c :
  c ∈ (schedule_import a present ++ schedule_ha_alpha a ++
       schedule_calibrate a ++ schedule_speckle a ++ schedule_flattening a ++
       schedule_db a).*1 →
  is_backscatter_geocoding a c = false.
Proof. intros H. in_blocks H. Qed.

Lemma no_geocoding_after a c :
  c ∈ (schedule_ls_mask a ++ schedule_coherence a).*1 →
  is_backscatter_geocoding a c = false.
Proof. intros H. in_blocks H. Qed.

Lemma flattening_scheduled a c l :
  (c, l) ∈ schedule_flattening a →
  product_type (ard a) = "RTC" ∧ schedule_flattening a = [(c, l)].
Proof.
  unfold schedule_flattening. intros H.
  destruct (String.eqb_spec (product_type (ard a)) "RTC") as [Hrtc|];
    [|by apply elem_of_nil in H].
  apply list_elem_of_singleton in H. by rewrite H.
Qed.

Lemma flattening_scheduled_rtc a :
  product_type (ard a) = "RTC" →
  ∃ c l, is_terrain_flattening c = true ∧ schedule_flattening a = [(c, l)].
Proof.
  intros Hrtc. unfold schedule_flattening. rewrite Hrtc. simpl.
  eexists _, _. split; [|reflexivity]; reflexivity.
Qed.

(** What is scheduled right before the terrain flattening. *)
Lemma before_flattening a present :
  product_type (ard a) = "RTC" →
  ∃ l0 prev,
    (schedule_import a present ++ schedule_ha_alpha a ++
     schedule_calibrate a ++ schedule_speckle a).*1 = l0 ++ [prev] ∧
    (if remove_speckle (ard a) then is_speckle_filter prev
     else is_calibration prev) = true.
Proof.
  intros Hrtc. unfold_schedule. unfold calibration_graph. rewrite Hrtc. simpl.
  destruct present, (H_A_Alpha (ard a)), (remove_speckle (ard a)); simpl;
    first [ by eexists [], _ | by eexists [_], _ | by eexists [_; _], _
          | by eexists [_; _; _], _ | by eexists [_; _; _; _], _ ].
Qed.


Lemma no_geocoding_before_flattening a present c :
  c ∈ (schedule_import a present ++ schedule_ha_alpha a ++
       schedule_calibrate a ++ schedule_speckle a).*1 →
  is_backscatter_geocoding a c = false.
Proof. intros H. in_blocks H. Qed.

Lemma schedule_commands_around_flattening a present c l :
  schedule_flattening a = [(c, l)] →
  (schedule a present).*1 =
    (schedule_import a present ++ schedule_ha_alpha a ++
     schedule_calibrate a ++ schedule_speckle a).*1 ++
    c :: (schedule_db a ++ schedule_geocode a ++ schedule_ls_mask a ++
          schedule_coherence a).*1.
Proof.
  intros H. by rewrite schedule_around_flattening, H, fmap_app.
Qed.

Lemma schedule_commands_around_geocoding a present :
  (schedule a present).*1 =
    (schedule_import a present ++ schedule_ha_alpha a ++
     schedule_calibrate a ++ schedule_speckle a ++ schedule_flattening a ++
     schedule_db a).*1 ++
    TerrainCorrection (dim (out_cal_db a)) (resolution (ard a)) (dem (ard a))
                      (temp_product a "_bs") ::
    (schedule_ls_mask a ++ schedule_coherence a).*1.
Proof. by rewrite schedule_around_geocoding, fmap_app. Qed.

(** C6: the terrain flattening is invoked only for the product type RTC,
    and every run with that product type that returns 0 has invoked it;
    whenever it is invoked, the invocation right before it is the
    calibration, or the speckle filter when speckle filtering is on, and the
    terrain correction of the backscatter product has not been invoked
    yet; for RTC, whenever that terrain correction is invoked, the terrain
    flattening was invoked before it. *)
Theorem C6_terrain_flattening_iff_rtc gpt code a f :
  let commands := ev_command <$> trace (run gpt code a f).2 in
  (∀ c, c ∈ commands → is_terrain_flattening c = true →
        product_type (ard a) = "RTC") ∧
  (product_type (ard a) = "RTC" → (run gpt code a f).1 = Returned 0 →
   ∃ c, c ∈ commands ∧ is_terrain_flattening c = true) ∧
  (∀ l1 c l2, commands = l1 ++ c :: l2 → is_terrain_flattening c = true →
     (∃ l0 prev,
        l1 = l0 ++ [prev] ∧
        (if remove_speckle (ard a) then is_speckle_filter prev
         else is_calibration prev) = true) ∧
     (∀ c', c' ∈ l1 → is_backscatter_geocoding a c' = false)) ∧
  (product_type (ard a) = "RTC" →
   ∀ l1 c l2, commands = l1 ++ c :: l2 →
     is_backscatter_geocoding a c = true →
     ∃ c', c' ∈ l1 ∧ is_terrain_flattening c' = true).
Proof.
  intros commands.
  destruct (run_commands gpt code a f) as [Hpre Hfull].
  fold commands in Hpre.
  set (present := path_exists (dim (master_import a)) f) in *.
  assert (∀ c, c ∈ commands → is_terrain_flattening c = true →
               product_type (ard a) = "RTC") as Honly.
  { intros c Hc Htf. eapply elem_of_prefix in Hc; [|exact Hpre].
    apply list_elem_of_fmap in Hc as ([c0 l] & -> & Hc).
    rewrite schedule_around_flattening in Hc.
    apply elem_of_app in Hc as [Hc|Hc]; [|apply elem_of_app in Hc as [Hc|Hc]].
    - apply (list_elem_of_fmap_2 fst), no_flattening_before in Hc.
      simpl in *. congruence.
    - by apply flattening_scheduled in Hc as [? _].
    - apply (list_elem_of_fmap_2 fst), no_flattening_after in Hc.
      simpl in *. congruence. }
  split_and!.
  - exact Honly.
  - intros Hrtc Hret.
    destruct (flattening_scheduled_rtc a Hrtc) as (c & l & Htf & Hflat).
    exists c. split; [|done].
    unfold commands. rewrite commands_of_trace, Hfull by done.
    rewrite (schedule_commands_around_flattening a present c l Hflat).
    apply elem_of_app. right. left.
  - intros l1 c l2 Hsplit Htf.
    assert (product_type (ard a) = "RTC") as Hrtc.
    { apply (Honly c); [|done]. rewrite Hsplit.
      apply elem_of_app. right. left. }
    destruct (flattening_scheduled_rtc a Hrtc) as (c0 & l & Htf0 & Hflat).
    rewrite Hsplit, (schedule_commands_around_flattening a present c0 l Hflat)
      in Hpre.
    apply (prefix_split_unique is_terrain_flattening) in Hpre as [-> _];
      [|done|apply no_flattening_before|apply no_flattening_after].
    split; [by apply before_flattening|].
    apply no_geocoding_before_flattening.
  - intros Hrtc l1 c l2 Hsplit Hbs.
    destruct (flattening_scheduled_rtc a Hrtc) as (c0 & l & Htf0 & Hflat).
    rewrite Hsplit, schedule_commands_around_geocoding in Hpre.
    apply (prefix_split_unique (is_backscatter_geocoding a)) in Hpre
      as [-> _]; [|done|apply no_geocoding_before|apply no_geocoding_after].
    exists c0. split; [|done].
    rewrite Hflat, !fmap_app, !elem_of_app.
    do 4 right. left. simpl. left.
Qed.

Lemma C6_witness :
  let a := Examples.rtc in
  let commands :=
    ev_command <$> trace (run Examples.gpt_ok 1 a Examples.empty_disk).2 in
  (∃ c, c ∈ commands ∧ is_terrain_flattening c = true) ∧
  (∀ l1 c l2, commands = l1 ++ c :: l2 →
     is_backscatter_geocoding a c = true →
     ∃ c', c' ∈ l1 ∧ is_terrain_flattening c' = true).
Proof.
  destruct (C6_terrain_flattening_iff_rtc
              Examples.gpt_ok 1 Examples.rtc Examples.empty_disk)
    as (_ & Hruns & _ & Hbefore).
  split.
  - apply Hruns; [reflexivity|]. vm_compute. reflexivity.
  - apply Hbefore. reflexivity.
Defined.


(** ** The names of the log files *)







(** ** What a successful run with the coherence branch leaves on disk *)

Lemma verify_dimap_on_disk (p : path) (t : bool) (f : filesystem) :
  verify_dimap p t f = true → product_on_disk p f.
Proof.
  unfold verify_dimap, product_on_disk. intros [Hd Hp]%andb_true_iff.
  split; [by apply path_exists_true|]. destruct (f !! data p); [eauto|done].
Qed.

Lemma dim_neq_data (p q : path) : dim p ≠ data q.
Proof. path_neq. Qed.

(** [move_dimap] brings a product that is on disk to its destination. *)
Lemma move_dimap_moved (src dst : path) (f : filesystem) :
  product_on_disk src f →
  product_on_disk dst
    (move_entry (data src) (data dst) (move_entry (dim src) (dim dst) f)).
Proof.
  intros [[n Hn] [n' Hn']]. split.
  - apply move_entry_is_Some; [apply dim_neq_data|].
    rewrite (move_entry_dst _ _ n) by done. eauto.
  - rewrite (move_entry_dst _ _ n'); [eauto|].
    rewrite move_entry_lookup_ne; [done|..];
      apply not_eq_sym, dim_neq_data.
Qed.

(** Pushes a lookup through the updates that do not touch its path. *)
Ltac frame :=
  repeat first
    [ rewrite lookup_delete_ne by path_neq
    | rewrite lookup_insert_ne by path_neq
    | rewrite write_product_lookup_ne by path_neq
    | rewrite move_entry_lookup_ne by path_neq ].

Section Coherence.
Context (gpt : command → filesystem → gpt_result) (integrity_error : positive).
Context (a : burst_args).

Lemma geocode_backscatter_moves out_cal w :
  wp (geocode_backscatter gpt integrity_error a out_cal)
     (λ _ w', product_on_disk (final_product a "_bs") (fs w'))
     (λ _ _, True) (λ _ _, True) w.
Proof.
  unfold geocode_backscatter, move_dimap. wp_steps; try done.
  by apply move_dimap_moved, (verify_dimap_on_disk _ true).
Qed.

Lemma ls_mask_keeps_backscatter rc out_cal w :
  product_on_disk (final_product a "_bs") (fs w) →
  wp (ls_mask gpt integrity_error a rc out_cal)
     (λ _ w', product_on_disk (final_product a "_bs") (fs w'))
     (λ _ _, True) (λ _ _, True) w.
Proof.
  intros [Hd Hp]. unfold ls_mask, move_dimap. wp_steps; try done.
  split; simpl; by frame.
Qed.

Lemma delete_out_cal_keeps_backscatter (f : filesystem) :
  product_on_disk (final_product a "_bs") f →
  product_on_disk (final_product a "_bs")
    (delete (data (out_cal_db a)) (delete (dim (out_cal_db a)) f)).
Proof. intros [Hd Hp]. split; by frame. Qed.

Lemma coherence_branch_keeps_slave_import rc w :
  master_burst_id a ≠ slave_burst_id a → writes_on_success gpt →
  coherence a = true → remove_slave_import a = false →
  product_on_disk (final_product a "_bs") (fs w) →
  wp (coherence_branch gpt integrity_error a rc)
     (λ _ w', after_coherence a (fs w')) (λ _ _, True) (λ _ _, True) w.
Proof.
  intros Hids Hgpt Hcoh Hkeep [Hd Hp].
  unfold coherence_branch, coherence_branch_of, move_dimap, delete_dimap.
  rewrite Hcoh, Hkeep. wp_steps; try done.
  match goal with H : verify_dimap _ _ _ = true |- _ =>
    apply verify_dimap_on_disk in H; destruct H as [Hcd Hcp]
  end.
  match goal with
  | H : exit_code (gpt (BurstSplit _ _ _ _ _) ?f) = 0%Z |- _ =>
      destruct (Hgpt _ _ H) as [Hwd Hwp];
      destruct (write_product_written (slave_import a) _
                  (<[stage_log a (slave_burst_id a) "import":=RegularFile]> f)
                  Hwd Hwp) as [Hsd Hsp]
  end.
  simpl in *. unfold after_coherence, product_on_disk, product_gone.
  split_and!.
  - by frame.
  - by frame.
  - frame. apply lookup_delete_eq.
  - frame. apply lookup_delete_eq.
  - frame. apply lookup_delete_eq.
  - frame. apply lookup_delete_eq.
  - by frame.
  - by frame.
  - frame. destruct Hcd as [n Hn]. rewrite (move_entry_dst _ _ n _ Hn). eauto.
  - frame.
    by apply (move_dimap_moved (temp_product a "_coh")
                               (final_product a "_coh")).
Qed.

Lemma stages_after_coherence w :
  master_burst_id a ≠ slave_burst_id a → writes_on_success gpt →
  coherence a = true → remove_slave_import a = false →
  wp (stages gpt integrity_error a)
     (λ _ w', after_coherence a (fs w')) (λ _ _, True) (λ _ _, True) w.
Proof.
  intros Hids Hgpt Hcoh Hkeep. unfold stages, stages_of.
  apply wp_bind. eapply wp_mono; [apply wp_true|intros _ w1 _|done..].
  apply wp_bind. eapply wp_mono; [apply wp_true|intros _ w2 _|done..].
  apply wp_bind.
  eapply wp_mono; [apply calibrate_follows|intros ? w3 [-> _]|done..].
  apply wp_bind.
  eapply wp_mono;
    [apply speckle_filtering_follows|intros ? w4 [-> _]|done..].
  apply wp_bind.
  eapply wp_mono;
    [apply terrain_flattening_follows|intros ? w5 [-> _]|done..].
  apply wp_bind.
  eapply wp_mono; [apply linear_to_db_follows|intros ? w6 [-> _]|done..].
  apply wp_bind.
  eapply wp_mono; [apply geocode_backscatter_moves|intros rc w7 Hbs|done..].
  apply wp_bind.
  eapply wp_mono;
    [by apply ls_mask_keeps_backscatter|intros rc' w8 Hbs'|done..].
  apply wp_bind. unfold delete_dimap. apply wp_io_op; intros _; [|done].
  apply coherence_branch_keeps_slave_import; try done.
  by apply delete_out_cal_keeps_backscatter.
Qed.
End Coherence.


Lemma product_on_disk_exists (p : path) (f : filesystem) :
  product_on_disk p f → dimap_exists p f = true.
Proof.
  intros [Hd Hp]. unfold dimap_exists.
  apply andb_true_iff. by rewrite !path_exists_true.
Qed.

(** C7: a run with the coherence branch and [remove_slave_import] false
    that returns 0 leaves the import of the slave burst in the temp
    directory, has deleted the import of the master burst and the
    coregistered product, and leaves the backscatter product, the coherence
    product and the marker in the output directory.  The two bursts have
    different ids, and the engine writes the product of a stage that exits
    with 0. *)
Theorem C7_coherence_run_keeps_slave_import gpt code a f w' :
  master_burst_id a ≠ slave_burst_id a → writes_on_success gpt →
  coherence a = true → remove_slave_import a = false →
  run gpt code a f = (Returned 0, w') →
  dimap_exists (slave_import a) (fs w') = true ∧
  path_exists (dim (master_import a)) (fs w') = false ∧
  path_exists (data (master_import a)) (fs w') = false ∧
  path_exists (dim (temp_product a "_coreg")) (fs w') = false ∧
  path_exists (data (temp_product a "_coreg")) (fs w') = false ∧
  dimap_exists (final_product a "_bs") (fs w') = true ∧
  dimap_exists (final_product a "_coh") (fs w') = true ∧
  path_exists (check_file a) (fs w') = true.
Proof.
  intros Hids Hgpt Hcoh Hkeep Hrun.
  unfold run, exec, burst_to_ard, burst_to_ard_of, bind in Hrun.
  change (stages_of gpt code a (PyStr (slave_file a)))
    with (stages gpt code a) in Hrun.
  destruct (stages gpt code a {| fs := f; trace := [] |})
    as [[rc|rc|c] ws] eqn:Hst.
  - destruct (wp_elim _ _ _ _ _ _ _ (stages_follows gpt code a _) Hst)
      as [-> _].
    pose proof (wp_elim _ _ _ _ _ _ _
                  (stages_after_coherence gpt code a _ Hids Hgpt Hcoh Hkeep)
                  Hst) as Hdisk.
    simpl in Hdisk, Hrun. injection Hrun as <-. simpl.
    destruct Hdisk as ([Hsd Hsp] & [Hmd Hmp] & [Hcd Hcp] & [Hbd Hbp]
                       & [Hfd Hfp]).
    split_and!.
    + apply product_on_disk_exists. split; by frame.
    + apply path_exists_false. by frame.
    + apply path_exists_false. by frame.
    + apply path_exists_false. by frame.
    + apply path_exists_false. by frame.
    + apply product_on_disk_exists. split; by frame.
    + apply product_on_disk_exists. split; by frame.
    + apply path_exists_true. rewrite lookup_insert_eq. eauto.
  - injection Hrun as -> <-.
    by destruct (wp_elim _ _ _ _ _ _ _ (stages_returns_nonzero gpt code a _)
                         Hst).
  - done.
Qed.

Lemma C7_witness :
  let a := Examples.with_coherence in
  let w' := (run Examples.gpt_ok 1 a Examples.empty_disk).2 in
  dimap_exists (slave_import a) (fs w') = true ∧
  path_exists (dim (master_import a)) (fs w') = false ∧
  path_exists (data (master_import a)) (fs w') = false ∧
  path_exists (dim (temp_product a "_coreg")) (fs w') = false ∧
  path_exists (data (temp_product a "_coreg")) (fs w') = false ∧
  dimap_exists (final_product a "_bs") (fs w') = true ∧
  dimap_exists (final_product a "_coh") (fs w') = true ∧
  path_exists (check_file a) (fs w') = true.
Proof.
  apply (C7_coherence_run_keeps_slave_import
           Examples.gpt_ok 1 Examples.with_coherence Examples.empty_disk).
  - discriminate.
  - intros c f _. split; [reflexivity|]. by eexists.
  - reflexivity.
  - reflexivity.
  - vm_compute. reflexivity.
Defined.


(** * More properties of the pipeline *)

(** ** Invariants of [stages], with the values of [out_cal] *)

Section StagesMaintains.
Context (gpt : command → filesystem → gpt_result) (integrity_error : positive).
Context (a : burst_args).
Context (I : World → Prop) (R : Z → World → Prop).

(** An invariant that every block keeps, called with the return code and
    the [out_cal] it is really called with, is an invariant of
    [stages]. *)
Lemma stages_maintains :
  maintains I R (import_master gpt a) →
  maintains I R (ha_alpha_branch gpt integrity_error a) →
  maintains I R (calibrate gpt a) →
  maintains I R (speckle_filtering gpt a 0 (temp_product a "_cal")) →
  maintains I R (terrain_flattening gpt a 0 (out_cal_speckle a)) →
  maintains I R (linear_to_db gpt a 0 (out_cal_rtc a)) →
  maintains I R (geocode_backscatter gpt integrity_error a (out_cal_db a)) →
  maintains I R (ls_mask gpt integrity_error a 0 (out_cal_db a)) →
  maintains I R (delete_dimap (out_cal_db a)) →
  maintains I R (coherence_branch gpt integrity_error a 0) →
  maintains I R (stages gpt integrity_error a).
Proof.
  intros Himp Hhaa Hcal Hspk Htf Hdb Hgeo Hls Hdel Hcoh w Hw.
  unfold stages, stages_of.
  apply wp_bind. eapply wp_mono; [by apply Himp|intros ? w1 Hw1|done..].
  apply wp_bind. eapply wp_mono; [by apply Hhaa|intros ? w2 Hw2|done..].
  apply wp_bind.
  eapply wp_mono;
    [exact (wp_and _ _ _ _ _ _ _ _ (calibrate_follows gpt a w2)
                   (Hcal w2 Hw2))
    |intros ? w3 [[-> _] Hw3]|by intros ?? [_ ?]..].
  apply wp_bind.
  eapply wp_mono;
    [exact (wp_and _ _ _ _ _ _ _ _ (speckle_filtering_follows gpt a w3)
                   (Hspk w3 Hw3))
    |intros ? w4 [[-> _] Hw4]|by intros ?? [_ ?]..].
  apply wp_bind.
  eapply wp_mono;
    [exact (wp_and _ _ _ _ _ _ _ _ (terrain_flattening_follows gpt a w4)
                   (Htf w4 Hw4))
    |intros ? w5 [[-> _] Hw5]|by intros ?? [_ ?]..].
  apply wp_bind.
  eapply wp_mono;
    [exact (wp_and _ _ _ _ _ _ _ _ (linear_to_db_follows gpt a w5)
                   (Hdb w5 Hw5))
    |intros ? w6 [[-> _] Hw6]|by intros ?? [_ ?]..].
  apply wp_bind.
  eapply wp_mono;
    [exact (wp_and _ _ _ _ _ _ _ _
              (geocode_backscatter_follows gpt integrity_error a w6)
              (Hgeo w6 Hw6))
    |intros ? w7 [[-> _] Hw7]|by intros ?? [_ ?]..].
  apply wp_bind.
  eapply wp_mono;
    [exact (wp_and _ _ _ _ _ _ _ _
              (ls_mask_follows gpt integrity_error a w7) (Hls w7 Hw7))
    |intros ? w8 [[-> _] Hw8]|by intros ?? [_ ?]..].
  apply wp_bind. eapply wp_mono; [by apply Hdel|intros ? w9 Hw9|done..].
  by apply Hcoh.
Qed.

(** The same for [burst_to_ard]: the final test reads 0 and writes the
    marker. *)
Lemma burst_to_ard_maintains w :
  maintains I R (stages gpt integrity_error a) →
  (∀ w', I w' →
         R 0%Z {| fs := <[check_file a := RegularFile]> (fs w');
                  trace := trace w' |}) →
  I w →
  wp (burst_to_ard gpt integrity_error a) (λ _ _, False) R (λ _, I) w.
Proof.
  intros Hst Hfinal Hw. unfold burst_to_ard, burst_to_ard_of. apply wp_bind.
  eapply wp_mono;
    [exact (wp_and _ _ _ _ _ _ _ _ (stages_follows gpt integrity_error a w)
                   (Hst w Hw))|..].
  - intros rc w' [[-> _] Hw']. apply write_marker_or_purge_wp; [|done].
    intros _. by apply Hfinal.
  - by intros rc w' [_ ?].
  - by intros c w' [_ ?].
Qed.
End StagesMaintains.


(** ** What a run leaves alone *)

Section Frame.
Context (gpt : command → filesystem → gpt_result) (integrity_error : positive).
Context (a : burst_args) (k : path).


End Frame.




(** ** The invocations of a run *)

Lemma schedule_length a present : length (schedule a present) ≤ 13.
Proof.
  unfold schedule. rewrite !length_app. unfold_schedule.
  repeat case_match; simpl; lia.
Qed.

(** X1: the invocations of a run, each with its log file, are a first part
    of the schedule of its arguments: the import unless its output is on
    disk, the decomposition and its terrain correction when requested, the
    calibration, the speckle filter, the terrain flattening and the
    conversion to dB when selected, the terrain correction, the
    layover/shadow mask when requested, and the four stages of the
    coherence branch when requested.  A run that returns 0 has made all of
    them; no run makes more than 13 invocations. *)
Theorem X1_run_follows_schedule gpt code a f :
  let s := schedule a (path_exists (dim (master_import a)) f) in
  let t := trace (run gpt code a f).2 in
  (cmd_log <$> t) `prefix_of` s ∧
  ((run gpt code a f).1 = Returned 0 → cmd_log <$> t = s) ∧
  length t ≤ 13.
Proof.
  intros s t.
  assert ((cmd_log <$> t) `prefix_of` s) as Hpre.
  { unfold t.
    apply (wp_run gpt code a f (λ _ w', (cmd_log <$> trace w') `prefix_of` s)).
    assert (∀ w', partially s {| fs := f; trace := [] |} w' →
                  (cmd_log <$> trace w') `prefix_of` s) as Hpart.
    { intros w' (q & Hq & Hext). unfold extends_by in Hext.
      by rewrite Hext. }
    eapply wp_mono; [apply burst_to_ard_follows|done|..].
    - intros rc w' [H _]. by apply Hpart.
    - intros c w' H. by apply Hpart. }
  split_and!.
  - done.
  - apply run_commands.
  - apply prefix_length in Hpre. rewrite length_fmap in Hpre.
    pose proof (schedule_length a (path_exists (dim (master_import a)) f)).
    unfold s in Hpre. lia.
Qed.

Lemma X1_witness :
  let a := Examples.with_ls_mask in
  let t := trace (run Examples.gpt_ok 1 a Examples.empty_disk).2 in
  cmd_log <$> t = schedule a false ∧ length t ≤ 13.
Proof.
  destruct (X1_run_follows_schedule Examples.gpt_ok 1 Examples.with_ls_mask
              Examples.empty_disk) as (_ & Hfull & Hlen).
  split; [|exact Hlen]. apply Hfull. vm_compute. reflexivity.
Defined.

Lemma calibration_graph_beta pt :
  calibration_graph pt = Some Calbeta ↔ pt = "RTC".
Proof.
  unfold calibration_graph.
  destruct (String.eqb_spec pt "RTC") as [->|Hne]; [done|].
  destruct (String.eqb pt "GTCgamma"); [by split|].
  destruct (String.eqb pt "GTCsigma"); by split.
Qed.

Lemma scheduled_flattening_rtc a present c l :
  (c, l) ∈ schedule a present → is_terrain_flattening c = true →
  product_type (ard a) = "RTC".
Proof.
  intros Hin Htf. in_schedule Hin; try discriminate.
  by apply String.eqb_eq.
Qed.

Lemma scheduled_beta_rtc a present c l :
  (c, l) ∈ schedule a present → is_beta_calibration c = true →
  product_type (ard a) = "RTC".
Proof.
  intros Hin Hbeta. in_schedule Hin; try discriminate.
  apply calibration_graph_beta.
  match goal with H : calibration_graph _ = Some ?g |- _ =>
    rewrite H; by destruct g
  end.
Qed.

Lemma scheduled_calibration_graph a present g i o l :
  (Calibrate g i o, l) ∈ schedule a present →
  calibration_graph (product_type (ard a)) = Some g.
Proof. intros Hin. by in_schedule Hin. Qed.

Lemma beta_before_flattening a present :
  product_type (ard a) = "RTC" →
  ∃ c, c ∈ (schedule_import a present ++ schedule_ha_alpha a ++
            schedule_calibrate a ++ schedule_speckle a).*1 ∧
       is_beta_calibration c = true.
Proof.
  intros Hrtc.
  exists (Calibrate Calbeta (dim (master_import a)) (temp_product a "_cal")).
  split; [|done]. rewrite !fmap_app, !elem_of_app. right. right. left.
  unfold schedule_calibrate, calibration_graph. rewrite Hrtc. simpl. left.
Qed.

(** X3: the calibration to beta nought, which its documentation says needs
    the terrain flattening, is the one used exactly for the product type
    RTC; the terrain flattening is invoked only in a run that has invoked
    the calibration to beta nought before, and every run that invokes that
    calibration and returns 0 has invoked the terrain flattening. *)
Theorem X3_beta_calibration_goes_with_flattening gpt code a f :
  let commands := ev_command <$> trace (run gpt code a f).2 in
  (∀ g i o, Calibrate g i o ∈ commands →
            (g = Calbeta ↔ product_type (ard a) = "RTC")) ∧
  (∀ l1 c l2, commands = l1 ++ c :: l2 → is_terrain_flattening c = true →
              ∃ c', c' ∈ l1 ∧ is_beta_calibration c' = true) ∧
  (∀ c, c ∈ commands → is_beta_calibration c = true →
        (run gpt code a f).1 = Returned 0 →
        ∃ c', c' ∈ commands ∧ is_terrain_flattening c' = true).
Proof.
  intros commands.
  destruct (run_commands gpt code a f) as [Hpre Hfull].
  fold commands in Hpre.
  set (present := path_exists (dim (master_import a)) f) in *.
  assert (∀ c, c ∈ commands → ∃ l, (c, l) ∈ schedule a present) as Hsched.
  { intros c Hc. eapply elem_of_prefix in Hc; [|exact Hpre].
    apply list_elem_of_fmap in Hc as ([c0 l] & -> & Hc). by exists l. }
  split_and!.
  - intros g i o Hc. apply Hsched in Hc as [l Hc].
    apply scheduled_calibration_graph in Hc.
    rewrite <- calibration_graph_beta, Hc. split; congruence.
  - intros l1 c l2 Hsplit Htf.
    assert (product_type (ard a) = "RTC") as Hrtc.
    { destruct (Hsched c) as [l Hc].
      - rewrite Hsplit. apply elem_of_app. right. left.
      - by eapply scheduled_flattening_rtc. }
    destruct (flattening_scheduled_rtc a Hrtc) as (c0 & l & Htf0 & Hflat).
    rewrite Hsplit, (schedule_commands_around_flattening a present c0 l Hflat)
      in Hpre.
    apply (prefix_split_unique is_terrain_flattening) in Hpre as [-> _];
      [|done|apply no_flattening_before|apply no_flattening_after].
    by apply beta_before_flattening.
  - intros c Hc Hbeta Hret.
    assert (product_type (ard a) = "RTC") as Hrtc.
    { destruct (Hsched c Hc) as [l Hl]. by eapply scheduled_beta_rtc. }
    destruct (flattening_scheduled_rtc a Hrtc) as (c0 & l & Htf0 & Hflat).
    exists c0. split; [|done].
    unfold commands. rewrite commands_of_trace, Hfull by done.
    rewrite (schedule_commands_around_flattening a present c0 l Hflat).
    apply elem_of_app. right. left.
Qed.

Lemma X3_witness :
  let a := Examples.rtc in
  let commands :=
    ev_command <$> trace (run Examples.gpt_ok 1 a Examples.empty_disk).2 in
  ∃ c', c' ∈ commands ∧ is_terrain_flattening c' = true.
Proof.
  destruct (X3_beta_calibration_goes_with_flattening
              Examples.gpt_ok 1 Examples.rtc Examples.empty_disk)
    as (_ & _ & Hneeds).
  apply (Hneeds (Calibrate Calbeta (dim (master_import Examples.rtc))
                           (temp_product Examples.rtc "_cal"))).
  - vm_compute. apply list_elem_of_further, list_elem_of_here.
  - reflexivity.
  - vm_compute. reflexivity.
Defined.

(** ** The polarisations handed to the engine *)

Lemma chars_remove_spaces s :
  chars (remove_spaces s) = filter (λ c, c ≠ " "%char) (chars s).
Proof.
  induction s as [|c s IH]; [done|]. simpl.
  destruct (Ascii.eqb_spec c " ") as [->|Hc].
  - rewrite filter_cons_False; [done|]. intros H. by apply H.
  - rewrite filter_cons_True by done. simpl. by rewrite IH.
Qed.

Lemma remove_spaces_no_space s : has_no_space (remove_spaces s).
Proof.
  unfold has_no_space. rewrite chars_remove_spaces.
  intros [H _]%list_elem_of_filter. by apply H.
Qed.

(** X7: the polarisations that an import and a coherence estimation hand
    to the engine are the [polarisation] and the [coherence bands] of the
    processing parameters with the spaces taken out and all other
    characters kept in their order; no such argument has a space. *)
Theorem X7_polarisations_without_spaces gpt code a f c p :
  c ∈ ev_command <$> trace (run gpt code a f).2 →
  cmd_polar c = Some p →
  has_no_space p ∧
  chars p =
    filter (λ x, x ≠ " "%char)
           (chars (if is_import c then polarisation (ard a)
                   else coherence_bands (ard a))).
Proof.
  intros Hc Hp.
  assert (p = remove_spaces (if is_import c then polarisation (ard a)
                             else coherence_bands (ard a))) as ->.
  { apply list_elem_of_fmap in Hc as (ev & -> & Hev).
    apply (run_in_schedule gpt code) in Hev. unfold cmd_log in Hev.
    destruct (ev_command ev) eqn:Hcmd; try discriminate;
      in_schedule Hev;
      unfold import_command, slave_import_command in *; by simplify_eq/=. }
  split; [apply remove_spaces_no_space|apply chars_remove_spaces].
Qed.

Lemma X7_witness :
  has_no_space "VV,VH" ∧
  chars "VV,VH" =
    filter (λ x, x ≠ " "%char) (chars (polarisation (ard Examples.plain))).
Proof.
  apply (X7_polarisations_without_spaces Examples.gpt_ok 1 Examples.plain
           Examples.empty_disk (import_command Examples.plain) "VV,VH").
  - vm_compute. apply list_elem_of_here.
  - reflexivity.
Defined.


(** ** How a run ends *)

Section Endings.
Context (gpt : command → filesystem → gpt_result) (integrity_error : positive).
Context (a : burst_args).

Lemma ends_bind {A B} (m : M A) (k : A → M B) :
  ends integrity_error m → (∀ v, ends integrity_error (k v)) →
  ends integrity_error (bind m k).
Proof.
  intros Hm Hk w. apply wp_bind.
  eapply wp_mono; [apply Hm|intros v w' _; apply Hk|done..].
Qed.

Lemma accounted_for_exit_code c l w f :
  accounted_for integrity_error (exit_code (gpt c (fs w)))
    {| fs := f; trace := trace (run_command gpt c l w).2 |}.
Proof. eexists. split; [apply last_snoc|by left]. Qed.

Lemma accounted_for_check c l w f :
  is_checked c = true →
  accounted_for integrity_error (Z.pos integrity_error)
    {| fs := f; trace := trace (run_command gpt c l w).2 |}.
Proof. intros Hc. eexists. split; [apply last_snoc|by right]. Qed.

Ltac ends_leaf :=
  first [ done
        | apply accounted_for_exit_code
        | by apply accounted_for_check ].

Ltac ends_block :=
  intros w; unfold_blocks; wp_steps; ends_leaf.

Lemma import_master_ends : ends integrity_error (import_master gpt a).
Proof. ends_block. Qed.

Lemma ha_alpha_branch_ends :
  ends integrity_error (ha_alpha_branch gpt integrity_error a).
Proof. ends_block. Qed.

Lemma calibrate_ends : ends integrity_error (calibrate gpt a).
Proof.
  intros w. unfold calibrate, delete_dimap. wp_step. wp_step.
  destruct (calibration_graph (product_type (ard a))); [|done].
  cbv beta. wp_steps; ends_leaf.
Qed.

Lemma speckle_filtering_ends rc p :
  ends integrity_error (speckle_filtering gpt a rc p).
Proof. ends_block. Qed.

Lemma terrain_flattening_ends rc p :
  ends integrity_error (terrain_flattening gpt a rc p).
Proof. ends_block. Qed.

Lemma linear_to_db_ends rc p :
  ends integrity_error (linear_to_db gpt a rc p).
Proof. ends_block. Qed.

Lemma geocode_backscatter_ends p :
  ends integrity_error (geocode_backscatter gpt integrity_error a p).
Proof. ends_block. Qed.

Lemma ls_mask_ends rc p :
  ends integrity_error (ls_mask gpt integrity_error a rc p).
Proof. ends_block. Qed.

Lemma coherence_branch_ends rc :
  ends integrity_error (coherence_branch gpt integrity_error a rc).
Proof. ends_block. Qed.

Lemma stages_ends : ends integrity_error (stages gpt integrity_error a).
Proof.
  unfold stages, stages_of.
  apply ends_bind; [apply import_master_ends|intros _].
  apply ends_bind; [apply ha_alpha_branch_ends|intros _].
  apply ends_bind; [apply calibrate_ends|intros [rc1 p1]].
  apply ends_bind; [apply speckle_filtering_ends|intros [rc2 p2]].
  apply ends_bind; [apply terrain_flattening_ends|intros [rc3 p3]].
  apply ends_bind; [apply linear_to_db_ends|intros [rc4 p4]].
  apply ends_bind; [apply geocode_backscatter_ends|intros rc5].
  apply ends_bind; [apply ls_mask_ends|intros rc6].
  apply ends_bind; [intros w; by apply wp_io_op|intros _].
  apply coherence_branch_ends.
Qed.

Lemma burst_to_ard_ends w :
  wp (burst_to_ard gpt integrity_error a) (λ _ _, False)
     (λ rc w', rc ≠ 0%Z → accounted_for integrity_error rc w')
     (λ _ _, True) w.
Proof.
  unfold burst_to_ard, burst_to_ard_of. apply wp_bind.
  eapply wp_mono;
    [exact (wp_and _ _ _ _ _ _ _ _ (stages_follows gpt integrity_error a w)
                   (stages_ends w))|..].
  - intros rc w' [[-> _] _]. by apply write_marker_or_purge_wp.
  - by intros rc w' [_ H] _.
  - done.
Qed.

(** With a product type that has no calibration graph, the stages stop
    at the calibration at the latest. *)
Lemma stages_follows_unknown w :
  calibration_graph (product_type (ard a)) = None →
  follows ((schedule_import a (path_exists (dim (master_import a)) (fs w)) ++
            schedule_ha_alpha a) ++ [])
          (λ _ : Z, False) (stages gpt integrity_error a) w.
Proof.
  intros Hnone. unfold stages, stages_of.
  rewrite <- (assoc_L (++)).
  eapply follows_bind; [apply import_master_follows|intros _ w1 _].
  eapply follows_bind; [apply ha_alpha_branch_follows|intros _ w2 _].
  unfold follows, calibrate. wp_step. wp_step. wp_step. rewrite Hnone.
  apply partially_complete, extends_by_nil.
Qed.
End Endings.

(** X4: a code other than 0 that [burst_to_ard] returns is accounted for by
    the last invocation it made: it is the exit code of that invocation, or
    it is the error code of the product check and that invocation is a
    terrain correction or the layover/shadow mask, the stages whose output
    is checked. *)
Theorem X4_nonzero_return_code_accounted_for gpt code a f rc :
  (run gpt code a f).1 = Returned rc → rc ≠ 0%Z →
  accounted_for code rc (run gpt code a f).2.
Proof.
  intros Hret Hrc.
  pose proof (wp_run gpt code a f
    (λ o w', ∀ rc, o = Returned rc → rc ≠ 0%Z → accounted_for code rc w'))
    as H.
  apply H; [|done..].
  eapply wp_mono; [apply burst_to_ard_ends|done|..].
  - intros rc' w' Hacc rc'' [= ->]. apply Hacc.
  - by intros c w' _ rc'' ?.
Qed.

Lemma X4_witness :
  accounted_for 1 1
    (run Examples.gpt_tc_failing 1 Examples.with_ls_mask
         Examples.empty_disk).2.
Proof.
  apply (X4_nonzero_return_code_accounted_for Examples.gpt_tc_failing 1
           Examples.with_ls_mask Examples.empty_disk 1).
  - vm_compute. reflexivity.
  - lia.
Defined.

(** X9: with a product type other than RTC, GTCgamma and GTCsigma no call of
    [burst_to_ard] returns 0: it invokes at most the import and the stages
    of the H-A-alpha decomposition, never the calibration or a later stage,
    and it does not write the completion marker. *)
Theorem X9_unknown_product_type_never_completes gpt code a f :
  product_type (ard a) ≠ "RTC" → product_type (ard a) ≠ "GTCgamma" →
  product_type (ard a) ≠ "GTCsigma" →
  (run gpt code a f).1 ≠ Returned 0 ∧
  (cmd_log <$> trace (run gpt code a f).2) `prefix_of`
    (schedule_import a (path_exists (dim (master_import a)) f) ++
     schedule_ha_alpha a) ∧
  (f !! check_file a = None →
   fs (run gpt code a f).2 !! check_file a = None).
Proof.
  intros H1 H2 H3.
  assert (calibration_graph (product_type (ard a)) = None) as Hnone.
  { unfold calibration_graph.
    apply String.eqb_neq in H1, H2, H3. by rewrite H1, H2, H3. }
  set (p := schedule_import a (path_exists (dim (master_import a)) f) ++
            schedule_ha_alpha a).
  assert (wp (burst_to_ard gpt code a) (λ _ _, False)
             (λ rc w', rc ≠ 0%Z ∧ (cmd_log <$> trace w') `prefix_of` p)
             (λ _ w', (cmd_log <$> trace w') `prefix_of` p)
             {| fs := f; trace := [] |}) as Hwp.
  { assert (∀ w', partially (p ++ []) {| fs := f; trace := [] |} w' →
                  (cmd_log <$> trace w') `prefix_of` p) as Hpart.
    { intros w' (q & Hq & Hext). unfold extends_by in Hext.
      rewrite app_nil_r in Hq. by rewrite Hext. }
    unfold burst_to_ard, burst_to_ard_of. apply wp_bind.
    eapply wp_mono;
      [exact (wp_and _ _ _ _ _ _ _ _
                (stages_follows_unknown gpt code a _ Hnone)
                (stages_returns_nonzero gpt code a _))|..].
    - by intros rc w' [[[] _] _].
    - intros rc w' [Hq Hrc]. split; [done|]. by apply Hpart.
    - intros c w' [Hq _]. by apply Hpart. }
  split_and!.
  - apply (wp_run gpt code a f (λ o _, o ≠ Returned 0)).
    eapply wp_mono; [exact Hwp|done|..].
    + intros rc w' [Hrc _] [= ->]. done.
    + by intros c w' _.
  - apply (wp_run gpt code a f
             (λ _ w', (cmd_log <$> trace w') `prefix_of` p)).
    eapply wp_mono; [exact Hwp|done|by intros ?? [_ ?]|done].
  - intros Hmarker.
    apply (wp_run gpt code a f (λ _ w', fs w' !! check_file a = None)).
    eapply wp_mono;
      [exact (wp_and _ _ _ _ _ _ _ _ Hwp
                (burst_to_ard_marker gpt code a {| fs := f; trace := [] |}
                   Hmarker))|done|..].
    + intros rc w' [[Hrc _] Hm]. apply eq_None_not_Some. by intros ?%Hm.
    + intros c w' [_ Hm]. apply Hm.
Qed.

Lemma X9_witness :
  (run Examples.gpt_ok 1 Examples.unknown_type Examples.empty_disk).1 ≠
    Returned 0.
Proof.
  apply (X9_unknown_product_type_never_completes Examples.gpt_ok 1
           Examples.unknown_type Examples.empty_disk); by vm_compute.
Defined.


(** ** Without the coherence flag *)

(** Proves that a step of a block that writes other paths keeps a path
    that is not on disk off disk. *)
Ltac stays_absent :=
  lazymatch goal with
  | |- maintains _ _ (abort_if_failed _ _) =>
      let w := fresh in let Hw := fresh in
      apply maintains_abort_if_failed; intros w Hw _;
      simpl; by apply purged_lookup_None
  | |- maintains _ _ (call (_calibration _ _ _ _ _)) =>
      let g := fresh in let w := fresh in let Hw := fresh in
      apply maintains_call_calibration; intros g w Hw;
      rewrite run_command_lookup_ne; [done|path_neq..]
  | |- maintains _ _ (call _) =>
      let w := fresh in let Hw := fresh in
      apply maintains_call_run; intros w Hw;
      rewrite run_command_lookup_ne; [done|path_neq..]
  | |- maintains _ _ (io_op _ _) =>
      let w := fresh in let Hw := fresh in
      apply maintains_io_op; intros w Hw; simpl;
      repeat first [ apply delete_lookup_None
                   | apply move_entry_None; [path_neq|] ];
      exact Hw
  end.

Section NoCoherence.
Context (gpt : command → filesystem → gpt_result) (integrity_error : positive).
Context (a : burst_args).
Hypothesis Hcoh : coherence a = false.

Lemma stages_keeps_absent (p k : path) :
  p ∈ coherence_products a → k = dim p ∨ k = data p →
  maintains (λ w, fs w !! k = None) (λ _ w, fs w !! k = None)
            (stages gpt integrity_error a).
Proof.
  intros Hp Hk. unfold coherence_products in Hp.
  set_unfold in Hp. destruct_or!; subst p k;
  (apply stages_maintains; unfold_blocks; rewrite ?Hcoh;
   maintains_structure ltac:(idtac; stays_absent)).
Qed.

Lemma run_keeps_absent (p k : path) f :
  p ∈ coherence_products a → k = dim p ∨ k = data p →
  f !! k = None → fs (run gpt integrity_error a f).2 !! k = None.
Proof.
  intros Hp Hk Hf.
  apply (wp_run gpt integrity_error a f (λ _ w', fs w' !! k = None)).
  apply (burst_to_ard_maintains gpt integrity_error a
           (λ w, fs w !! k = None) (λ _ w, fs w !! k = None));
    [by eapply stages_keeps_absent| |done].
  intros w' Hw'. simpl. rewrite lookup_insert_ne; [done|].
  unfold coherence_products in Hp.
  set_unfold in Hp. destruct_or!; subst p k; path_neq.
Qed.

Lemma scheduled_without_coherence present c l :
  (c, l) ∈ schedule a present →
  is_coherence_stage a c = false ∧
  (is_import c = true → c = import_command a).
Proof.
  intros Hin. in_schedule Hin; try congruence;
    (split; [|done]); simpl; try done;
    apply bool_decide_eq_false; path_neq.
Qed.
End NoCoherence.

(** X2: a call without the coherence flag does none of the work of the
    coherence branch: it invokes no coregistration, no coherence
    estimation and no terrain correction of a coherence, the only import
    it can invoke is the one of the master burst, and none of the products
    of the coherence branch, in the temp directory or in the output
    directory, is on disk afterwards unless it was there before. *)
Theorem X2_no_coherence_work_unless_requested gpt code a f :
  coherence a = false →
  (∀ c, c ∈ ev_command <$> trace (run gpt code a f).2 →
        is_coherence_stage a c = false ∧
        (is_import c = true → c = import_command a)) ∧
  (∀ p, p ∈ coherence_products a → product_gone p f →
        product_gone p (fs (run gpt code a f).2)).
Proof.
  intros Hcoh. split.
  - intros c (ev & -> & Hev)%list_elem_of_fmap.
    apply (run_in_schedule gpt code) in Hev.
    by eapply scheduled_without_coherence.
  - intros p Hp [Hdim Hdata].
    split; eapply run_keeps_absent; eauto.
Qed.

Lemma X2_witness :
  product_gone (final_product Examples.with_ls_mask "_coh")
    (fs (run Examples.gpt_ok 1 Examples.with_ls_mask Examples.empty_disk).2).
Proof.
  apply (X2_no_coherence_work_unless_requested Examples.gpt_ok 1
           Examples.with_ls_mask Examples.empty_disk).
  - reflexivity.
  - vm_compute. do 3 right. left.
  - by vm_compute.
Defined.


(** ** Run from the command line *)

Lemma run_keeps_slave_import gpt code a f :
  master_burst_id a ≠ slave_burst_id a → writes_on_success gpt →
  coherence a = true → remove_slave_import a = false →
  (run gpt code a f).1 = Returned 0 →
  product_on_disk (slave_import a) (fs (run gpt code a f).2).
Proof.
  intros Hids Hgpt Hcoh Hkeep.
  apply (wp_run gpt code a f
           (λ o w', o = Returned 0 →
                    product_on_disk (slave_import a) (fs w'))).
  unfold burst_to_ard, burst_to_ard_of. apply wp_bind.
  eapply wp_mono;
    [exact (wp_and _ _ _ _ _ _ _ _
              (wp_and _ _ _ _ _ _ _ _ (stages_follows gpt code a _)
                      (stages_after_coherence gpt code a _ Hids Hgpt Hcoh
                                              Hkeep))
              (stages_returns_nonzero gpt code a _))|..].
  - intros rc w' [[[-> _] ([Hsd Hsp] & _)] _].
    apply write_marker_or_purge_wp; [|done]. intros _ _. simpl.
    split; by frame.
  - by intros rc w' [_ Hrc] [= ->].
  - done.
Qed.

Lemma slave_import_scheduled a present :
  coherence a = true → slave_import_command a ∈ (schedule a present).*1.
Proof.
  intros Hcoh. unfold schedule, schedule_coherence. rewrite Hcoh.
  rewrite !fmap_app, !elem_of_app. do 8 right. left.
Qed.

Section NoSlave.
Context (gpt : command → filesystem → gpt_result) (integrity_error : positive).
Context (a : burst_args) (slave : py_value).

(** A block of [stages_of] returns nonzero codes only. *)
Ltac returns_nonzero :=
  let w := fresh in
  intros w;
  apply (maintains_wp (λ _, True) (cleaned a));
  [ unfold_blocks;
    maintains_structure ltac:(idtac;
      first [ apply abort_if_failed_cleaned
            | apply maintains_call_calibration; done
            | apply maintains_call_run; done
            | apply maintains_io_op; done ])
  | done | done | by intros ?? [? ?] | done ].

Lemma wp_bind_nonzero {A B} (m : M A) (k : A → M B)
    (Qv : B → World → Prop) w :
  (∀ w, wp m (λ _ _, True) (λ rc _, rc ≠ 0%Z) (λ _ _, True) w) →
  (∀ x w, wp (k x) Qv (λ rc _, rc ≠ 0%Z) (λ _ _, True) w) →
  wp (bind m k) Qv (λ rc _, rc ≠ 0%Z) (λ _ _, True) w.
Proof.
  intros Hm Hk. apply wp_bind.
  eapply wp_mono; [apply Hm|intros x w' _; apply Hk|done..].
Qed.

(** Without a string as [slave_file], the coherence branch is left by
    the [TypeError] of its first call: no call with the coherence flag
    falls through the stages. *)
Lemma stages_of_no_slave w :
  coherence a = true → (∀ s, slave ≠ PyStr s) →
  wp (stages_of gpt integrity_error a slave) (λ _ _, False)
     (λ rc _, rc ≠ 0%Z) (λ _ _, True) w.
Proof.
  intros Hcoh Hslave. unfold stages_of.
  apply wp_bind_nonzero; [returns_nonzero|intros _ w1].
  apply wp_bind_nonzero; [returns_nonzero|intros _ w2].
  apply wp_bind_nonzero; [returns_nonzero|intros [rc3 p3] w3].
  apply wp_bind_nonzero; [returns_nonzero|intros [rc4 p4] w4].
  apply wp_bind_nonzero; [returns_nonzero|intros [rc5 p5] w5].
  apply wp_bind_nonzero; [returns_nonzero|intros [rc6 p6] w6].
  apply wp_bind_nonzero; [returns_nonzero|intros rc7 w7].
  apply wp_bind_nonzero; [returns_nonzero|intros rc8 w8].
  apply wp_bind_nonzero; [returns_nonzero|intros _ w9].
  unfold coherence_branch_of. rewrite Hcoh. apply wp_bind.
  destruct slave as [s| |]; [by destruct (Hslave s)|done..].
Qed.

Lemma burst_to_ard_of_no_slave w :
  coherence a = true → (∀ s, slave ≠ PyStr s) →
  (exec (burst_to_ard_of gpt integrity_error a slave) w).1 ≠ Returned 0.
Proof.
  intros Hcoh Hslave.
  apply (wp_exec _ (λ o _, o ≠ Returned 0)).
  unfold burst_to_ard_of. apply wp_bind.
  eapply wp_mono; [by apply stages_of_no_slave|done|..].
  - by intros rc w' Hrc [= ->].
  - done.
Qed.
End NoSlave.

(** From the command line with a scene given as [--slave], [main] is a run
    of [burst_to_ard] on the arguments of [main_args]. *)
Lemma main_with_slave gpt code cl ard f sl :
  cl_slave cl = Some sl →
  main gpt code cl ard f = run gpt code (main_args cl ard) f.
Proof.
  intros Hsl. unfold main, run, burst_to_ard, main_args. simpl.
  by rewrite Hsl.
Qed.

(** X8: run from the command line, the options have no type: the value of
    [--coherence] is a string, so any value that is not empty, the text
    False included, switches the coherence branch on, and the value of
    [--remove_slave_import] is never the object [True], so the import of
    the slave burst is never removed.  For a command line with a value for
    [--coherence]: without [--slave] the call does not return 0, the
    import of the slave scene raises a [TypeError]; with [--slave], a call
    that returns 0 has invoked the import of the slave burst and, for
    bursts with different ids and an engine that writes the product of a
    stage that exits with 0, leaves it in the temp directory, whatever is
    given as [--remove_slave_import]. *)
Theorem X8_command_line_flags_are_strings gpt code cl ard f s :
  let a := main_args cl ard in
  cl_coherence cl = Some s → s ≠ EmptyString →
  coherence a = true ∧ remove_slave_import a = false ∧
  (cl_slave cl = None → (main gpt code cl ard f).1 ≠ Returned 0) ∧
  (is_Some (cl_slave cl) → (main gpt code cl ard f).1 = Returned 0 →
   slave_import_command a ∈ ev_command <$> trace (main gpt code cl ard f).2 ∧
   (writes_on_success gpt → master_burst_id a ≠ slave_burst_id a →
    product_on_disk (slave_import a) (fs (main gpt code cl ard f).2))).
Proof.
  intros a Hs Hne.
  assert (coherence a = true) as Hcoh.
  { unfold a, main_args. simpl. rewrite Hs. simpl. by destruct s. }
  assert (remove_slave_import a = false) as Hkeep.
  { unfold a, main_args. simpl. by destruct (parsed _ _). }
  split_and!; [done..| |].
  - intros Hnone. unfold main. fold a. rewrite Hnone.
    by apply burst_to_ard_of_no_slave.
  - intros [sl Hsl]. rewrite (main_with_slave gpt code cl ard f sl Hsl).
    fold a. intros Hret. split.
    + destruct (run_commands gpt code a f) as [_ Hfull].
      rewrite commands_of_trace, Hfull by done.
      by apply slave_import_scheduled.
    + intros Hgpt Hids. by apply run_keeps_slave_import.
Qed.

Lemma X8_witness :
  let cl := {| cl_master := "S1A_master.zip"; cl_master_swath := "IW1";
               cl_master_burst_nr := "7"; cl_master_burst_id := Some "A015";
               cl_out_directory := "out"; cl_temp_directory := "tmp";
               cl_slave := Some "S1A_slave.zip";
               cl_slave_burst_nr := Some "7";
               cl_slave_burst_id := Some "B027";
               cl_coherence := Some "False";
               cl_remove_slave_import := Some "True" |} in
  let ard := ard Examples.plain in
  product_on_disk (slave_import (main_args cl ard))
    (fs (main Examples.gpt_ok 1 cl ard Examples.empty_disk).2).
Proof.
  intros cl ard.
  apply (X8_command_line_flags_are_strings Examples.gpt_ok 1 cl ard
           Examples.empty_disk "False").
  - reflexivity.
  - discriminate.
  - by eexists.
  - vm_compute. reflexivity.
  - intros c f _. split; [reflexivity|]. by eexists.
  - discriminate.
Defined.

(** The same command line without [--slave]: the master stages run, then
    the import of the slave scene raises. *)
Lemma main_without_slave_raises :
  let cl := {| cl_master := "S1A_master.zip"; cl_master_swath := "IW1";
               cl_master_burst_nr := "7"; cl_master_burst_id := Some "A015";
               cl_out_directory := "out"; cl_temp_directory := "tmp";
               cl_slave := None; cl_slave_burst_nr := None;
               cl_slave_burst_id := None; cl_coherence := Some "True";
               cl_remove_slave_import := None |} in
  let r := main Examples.gpt_ok 1 cl (ard Examples.plain)
                Examples.empty_disk in
  r.1 = Raised TypeError ∧ length (trace r.2) = 3.
Proof. vm_compute. done. Qed.


(** ** What a run that returns 0 delivers *)

Section Steps.
Context (gpt : command → filesystem → gpt_result) (integrity_error : positive).
Context (a : burst_args).

Lemma step_true {A} (I : World → Prop) (m : M A) : step I (λ _, True) m.
Proof. intros w _. apply wp_true. Qed.

Lemma maintains_step {A} (I : World → Prop) R (m : M A) :
  maintains I R m → step I I m.
Proof. intros Hm w Hw. eapply wp_mono; [by apply Hm|done..]. Qed.

(** The blocks of [stages] one after the other, each called with the
    return code and the [out_cal] it is really called with. *)
Lemma stages_steps_or (E I0 I1 I2 I3 I4 I5 I6 I7 I8 I9 I10 : World → Prop) :
  step_or E I0 I1 (import_master gpt a) →
  step_or E I1 I2 (ha_alpha_branch gpt integrity_error a) →
  step_or E I2 I3 (calibrate gpt a) →
  step_or E I3 I4 (speckle_filtering gpt a 0 (temp_product a "_cal")) →
  step_or E I4 I5 (terrain_flattening gpt a 0 (out_cal_speckle a)) →
  step_or E I5 I6 (linear_to_db gpt a 0 (out_cal_rtc a)) →
  step_or E I6 I7
          (geocode_backscatter gpt integrity_error a (out_cal_db a)) →
  step_or E I7 I8 (ls_mask gpt integrity_error a 0 (out_cal_db a)) →
  step_or E I8 I9 (delete_dimap (out_cal_db a)) →
  step_or E I9 I10 (coherence_branch gpt integrity_error a 0) →
  step_or E I0 I10 (stages gpt integrity_error a).
Proof.
  intros Himp Hhaa Hcal Hspk Htf Hdb Hgeo Hls Hdel Hcoh w Hw.
  unfold stages, stages_of.
  apply wp_bind. eapply wp_mono; [by apply Himp|intros ? w1 Hw1|done..].
  apply wp_bind. eapply wp_mono; [by apply Hhaa|intros ? w2 Hw2|done..].
  apply wp_bind.
  eapply wp_mono;
    [exact (wp_and _ _ _ _ _ _ _ _ (calibrate_follows gpt a w2)
                   (Hcal w2 Hw2))
    |intros ? w3 [[-> _] Hw3]|by intros ?? [_ ?]..].
  apply wp_bind.
  eapply wp_mono;
    [exact (wp_and _ _ _ _ _ _ _ _ (speckle_filtering_follows gpt a w3)
                   (Hspk w3 Hw3))
    |intros ? w4 [[-> _] Hw4]|by intros ?? [_ ?]..].
  apply wp_bind.
  eapply wp_mono;
    [exact (wp_and _ _ _ _ _ _ _ _ (terrain_flattening_follows gpt a w4)
                   (Htf w4 Hw4))
    |intros ? w5 [[-> _] Hw5]|by intros ?? [_ ?]..].
  apply wp_bind.
  eapply wp_mono;
    [exact (wp_and _ _ _ _ _ _ _ _ (linear_to_db_follows gpt a w5)
                   (Hdb w5 Hw5))
    |intros ? w6 [[-> _] Hw6]|by intros ?? [_ ?]..].
  apply wp_bind.
  eapply wp_mono;
    [exact (wp_and _ _ _ _ _ _ _ _
              (geocode_backscatter_follows gpt integrity_error a w6)
              (Hgeo w6 Hw6))
    |intros ? w7 [[-> _] Hw7]|by intros ?? [_ ?]..].
  apply wp_bind.
  eapply wp_mono;
    [exact (wp_and _ _ _ _ _ _ _ _
              (ls_mask_follows gpt integrity_error a w7) (Hls w7 Hw7))
    |intros ? w8 [[-> _] Hw8]|by intros ?? [_ ?]..].
  apply wp_bind. eapply wp_mono; [by apply Hdel|intros ? w9 Hw9|done..].
  by apply Hcoh.
Qed.

Lemma stages_steps (I0 I1 I2 I3 I4 I5 I6 I7 I8 I9 I10 : World → Prop) :
  step I0 I1 (import_master gpt a) →
  step I1 I2 (ha_alpha_branch gpt integrity_error a) →
  step I2 I3 (calibrate gpt a) →
  step I3 I4 (speckle_filtering gpt a 0 (temp_product a "_cal")) →
  step I4 I5 (terrain_flattening gpt a 0 (out_cal_speckle a)) →
  step I5 I6 (linear_to_db gpt a 0 (out_cal_rtc a)) →
  step I6 I7 (geocode_backscatter gpt integrity_error a (out_cal_db a)) →
  step I7 I8 (ls_mask gpt integrity_error a 0 (out_cal_db a)) →
  step I8 I9 (delete_dimap (out_cal_db a)) →
  step I9 I10 (coherence_branch gpt integrity_error a 0) →
  step I0 I10 (stages gpt integrity_error a).
Proof. apply stages_steps_or. Qed.

(** What the stages establish holds, with the marker written, when
    [burst_to_ard] returns 0. *)
Lemma burst_to_ard_steps (I J : World → Prop) (Q : World → Prop) w :
  step I J (stages gpt integrity_error a) →
  (∀ w', J w' →
         Q {| fs := <[check_file a := RegularFile]> (fs w');
              trace := trace w' |}) →
  I w →
  wp (burst_to_ard gpt integrity_error a) (λ _ _, False)
     (λ rc w', rc = 0%Z → Q w') (λ _ _, True) w.
Proof.
  intros Hst Hfinal Hw. unfold burst_to_ard, burst_to_ard_of. apply wp_bind.
  eapply wp_mono;
    [exact (wp_and _ _ _ _ _ _ _ _
              (wp_and _ _ _ _ _ _ _ _
                 (stages_follows gpt integrity_error a w) (Hst w Hw))
              (stages_returns_nonzero gpt integrity_error a w))|..].
  - intros rc w' [[[-> _] Hw'] _]. apply write_marker_or_purge_wp; [|done].
    intros _ _. by apply Hfinal.
  - by intros rc w' [_ Hrc] ->.
  - done.
Qed.

Lemma run_steps (I J : World → Prop) (Q : World → Prop) f :
  step I J (stages gpt integrity_error a) →
  (∀ w', J w' →
         Q {| fs := <[check_file a := RegularFile]> (fs w');
              trace := trace w' |}) →
  I {| fs := f; trace := [] |} →
  (run gpt integrity_error a f).1 = Returned 0 →
  Q (run gpt integrity_error a f).2.
Proof.
  intros Hst Hfinal Hw.
  apply (wp_run gpt integrity_error a f (λ o w', o = Returned 0 → Q w')).
  eapply wp_mono; [by eapply burst_to_ard_steps|done|..].
  - intros rc w' H [= ->]. by apply H.
  - done.
Qed.
End Steps.

(** *** The check of a product and the file system *)

Lemma verify_dimap_frame (p : path) (t : bool) (f f' : filesystem) :
  f' !! dim p = f !! dim p → f' !! data p = f !! data p →
  verify_dimap p t f' = verify_dimap p t f.
Proof. intros Hd Hp. unfold verify_dimap, path_exists. by rewrite Hd, Hp. Qed.

Lemma verify_dimap_moved (src dst : path) (t : bool) (f : filesystem) :
  verify_dimap src t f = true →
  verify_dimap dst t
    (move_entry (data src) (data dst) (move_entry (dim src) (dim dst) f))
  = true.
Proof.
  unfold verify_dimap, path_exists. intros [Hd Hp]%andb_true_iff.
  destruct (f !! dim src) as [n|] eqn:Hn; [|done].
  destruct (f !! data src) as [n'|] eqn:Hn'; [|done].
  assert (move_entry (dim src) (dim dst) f !! data src = Some n') as Hn''.
  { rewrite move_entry_lookup_ne; [done|apply not_eq_sym, dim_neq_data..]. }
  rewrite (move_entry_dst _ _ n' _ Hn'').
  rewrite move_entry_lookup_ne by apply dim_neq_data.
  by rewrite (move_entry_dst _ _ n _ Hn).
Qed.

(** Pushes the check of a product through the updates of other paths. *)
Ltac verify_frame :=
  unfold verified in *; simpl;
  repeat first
    [ rewrite (verify_dimap_frame _ _ _ (delete _ _))
        by (rewrite lookup_delete_ne by path_neq; reflexivity)
    | rewrite (verify_dimap_frame _ _ _ (<[_ := _]> _))
        by (rewrite lookup_insert_ne by path_neq; reflexivity)
    | rewrite (verify_dimap_frame _ _ _ (write_product _ _ _))
        by (rewrite write_product_lookup_ne by path_neq; reflexivity)
    | rewrite (verify_dimap_frame _ _ _ (move_entry _ _ _))
        by (rewrite move_entry_lookup_ne by path_neq; reflexivity) ].

(** Proves that a block keeps a checked final product. *)
Ltac keeps_verified :=
  eapply (maintains_step _ (λ _ _, True));
  unfold_blocks;
  maintains_structure ltac:(idtac;
    lazymatch goal with
    | |- maintains _ _ (abort_if_failed _ _) =>
        let w := fresh in let Hw := fresh in
        intros w Hw; by apply abort_if_failed_wp
    | |- maintains _ _ (call (_calibration _ _ _ _ _)) =>
        apply maintains_call_calibration; intros g w Hw; by verify_frame
    | |- maintains _ _ (call _) =>
        apply maintains_call_run; intros w Hw; by verify_frame
    | |- maintains _ _ (io_op _ _) =>
        apply maintains_io_op; intros w Hw; by verify_frame
    end).

Section Delivered.
Context (gpt : command → filesystem → gpt_result) (integrity_error : positive).
Context (a : burst_args).

Lemma ha_alpha_branch_delivers :
  H_A_Alpha (ard a) = true →
  step (λ _, True) (verified (final_product a "_pol") true)
       (ha_alpha_branch gpt integrity_error a).
Proof.
  intros Hflag w _. unfold ha_alpha_branch, move_dimap, delete_dimap.
  rewrite Hflag. wp_steps; try done.
  verify_frame. by apply verify_dimap_moved.
Qed.

Lemma geocode_backscatter_delivers (I : World → Prop) out_cal :
  step I (verified (final_product a "_bs") true)
       (geocode_backscatter gpt integrity_error a out_cal).
Proof.
  intros w _. unfold geocode_backscatter, move_dimap.
  wp_steps; try done.
  verify_frame. by apply verify_dimap_moved.
Qed.

Lemma ls_mask_delivers (I : World → Prop) rc out_cal :
  create_ls_mask (ard a) = true →
  step I (verified (final_product a "_LS") false)
       (ls_mask gpt integrity_error a rc out_cal).
Proof.
  intros Hflag w _. unfold ls_mask, move_dimap.
  rewrite Hflag. wp_steps; try done.
  verify_frame. by apply verify_dimap_moved.
Qed.

Lemma coherence_branch_delivers (I : World → Prop) rc :
  coherence a = true →
  step I (verified (final_product a "_coh") true)
       (coherence_branch gpt integrity_error a rc).
Proof.
  intros Hflag w _. unfold coherence_branch, coherence_branch_of, move_dimap, delete_dimap.
  rewrite Hflag. wp_steps; try done.
  all: verify_frame; by apply verify_dimap_moved.
Qed.

Lemma stages_delivers_pol :
  H_A_Alpha (ard a) = true →
  step (λ _, True) (verified (final_product a "_pol") true)
       (stages gpt integrity_error a).
Proof.
  intros Hflag.
  apply (stages_steps gpt integrity_error a
           (λ _, True) (λ _, True)
           (verified (final_product a "_pol") true)
           (verified (final_product a "_pol") true)
           (verified (final_product a "_pol") true)
           (verified (final_product a "_pol") true)
           (verified (final_product a "_pol") true)
           (verified (final_product a "_pol") true)
           (verified (final_product a "_pol") true)
           (verified (final_product a "_pol") true)
           (verified (final_product a "_pol") true));
    first [ apply step_true
          | by apply ha_alpha_branch_delivers
          | keeps_verified ].
Qed.

Lemma stages_delivers_bs :
  step (λ _, True) (verified (final_product a "_bs") true)
       (stages gpt integrity_error a).
Proof.
  apply (stages_steps gpt integrity_error a
           (λ _, True) (λ _, True) (λ _, True) (λ _, True) (λ _, True)
           (λ _, True) (λ _, True)
           (verified (final_product a "_bs") true)
           (verified (final_product a "_bs") true)
           (verified (final_product a "_bs") true)
           (verified (final_product a "_bs") true));
    first [ apply step_true
          | apply geocode_backscatter_delivers
          | keeps_verified ].
Qed.

Lemma stages_delivers_ls :
  create_ls_mask (ard a) = true →
  step (λ _, True) (verified (final_product a "_LS") false)
       (stages gpt integrity_error a).
Proof.
  intros Hflag.
  apply (stages_steps gpt integrity_error a
           (λ _, True) (λ _, True) (λ _, True) (λ _, True) (λ _, True)
           (λ _, True) (λ _, True) (λ _, True)
           (verified (final_product a "_LS") false)
           (verified (final_product a "_LS") false)
           (verified (final_product a "_LS") false));
    first [ apply step_true
          | by apply ls_mask_delivers
          | keeps_verified ].
Qed.

Lemma stages_delivers_coh :
  coherence a = true →
  step (λ _, True) (verified (final_product a "_coh") true)
       (stages gpt integrity_error a).
Proof.
  intros Hflag.
  apply (stages_steps gpt integrity_error a
           (λ _, True) (λ _, True) (λ _, True) (λ _, True) (λ _, True)
           (λ _, True) (λ _, True) (λ _, True) (λ _, True) (λ _, True)
           (verified (final_product a "_coh") true));
    first [ apply step_true | by apply coherence_branch_delivers ].
Qed.

Lemma stages_delivers p t :
  (p, t) ∈ final_products a →
  step (λ _, True) (verified p t) (stages gpt integrity_error a).
Proof.
  unfold final_products. rewrite !elem_of_app. intros Hin.
  destruct_or!; repeat case_match; set_unfold; destruct_or?;
    simplify_eq; try done.
  - by apply stages_delivers_pol.
  - apply stages_delivers_bs.
  - by apply stages_delivers_ls.
  - by apply stages_delivers_coh.
Qed.
End Delivered.

(** X5: when [burst_to_ard] returns 0, every final product of its
    arguments is in the output directory and passes the check: the
    backscatter, the decomposition when H-A-alpha is requested, the
    layover/shadow mask when requested and the coherence when requested,
    each with its descriptor and its payload, and with statistics for all
    but the mask. *)
Theorem X5_returned_zero_delivers_checked_products gpt code a f p t :
  (run gpt code a f).1 = Returned 0 →
  (p, t) ∈ final_products a →
  p.1 = as_dir (out_dir a) ∧
  verify_dimap p t (fs (run gpt code a f).2) = true.
Proof.
  intros Hret Hin. split.
  - unfold final_products in Hin. rewrite !elem_of_app in Hin.
    destruct_or!; repeat case_match; set_unfold; destruct_or?;
      by simplify_eq.
  - apply (run_steps gpt code a (λ _, True) (verified p t)
                     (λ w', verify_dimap p t (fs w') = true) f);
      [by apply stages_delivers| |done..].
    intros w' Hw'. simpl. unfold verified in Hw'.
    rewrite (verify_dimap_frame _ _ (fs w')); [done|..];
      apply lookup_insert_ne;
      unfold final_products in Hin; rewrite !elem_of_app in Hin;
      destruct_or!; repeat case_match; set_unfold; destruct_or?;
      simplify_eq; path_neq.
Qed.

Lemma X5_witness :
  verify_dimap (final_product Examples.with_coherence "_coh") true
    (fs (run Examples.gpt_ok 1 Examples.with_coherence
             Examples.empty_disk).2) = true.
Proof.
  apply (X5_returned_zero_delivers_checked_products Examples.gpt_ok 1
           Examples.with_coherence Examples.empty_disk
           (final_product Examples.with_coherence "_coh") true).
  - vm_compute. reflexivity.
  - vm_compute. do 1 right. left.
Defined.


(** ** What a run that returns 0 leaves in the temp directory *)


Section TempWithin.
Context (a : burst_args) (f0 : filesystem).







End TempWithin.


Section Leftovers.
Context (gpt : command → filesystem → gpt_result) (integrity_error : positive).
Context (a : burst_args) (f0 : filesystem).
Hypothesis Hdirs : as_dir (temp_dir a) ≠ as_dir (out_dir a).











End Leftovers.




(** ** The import of the master burst after a run that returns 0 *)

(** Looks a deleted path up through the updates made after its deletion. *)
Ltac deleted :=
  simpl;
  repeat first
    [ apply lookup_delete_eq
    | apply delete_lookup_None
    | apply move_entry_None; [path_neq|]
    | rewrite write_product_lookup_ne by path_neq
    | rewrite lookup_insert_ne by path_neq ].

Section ImportRemoved.
Context (gpt : command → filesystem → gpt_result) (integrity_error : positive).
Context (a : burst_args) (k : path).
Hypothesis Hk : k = dim (master_import a) ∨ k = data (master_import a).

Lemma calibrate_removes_import :
  coherence a = false →
  step (λ _, True) (λ w, fs w !! k = None) (calibrate gpt a).
Proof.
  intros Hcoh w _. unfold calibrate, delete_dimap. wp_step. wp_step.
  destruct (calibration_graph (product_type (ard a))); [|done].
  cbv beta. rewrite Hcoh. simpl negb.
  destruct Hk as [-> | ->]; wp_steps; first [done|deleted].
Qed.

Lemma coherence_branch_removes_import rc :
  coherence a = true →
  step (λ _, True) (λ w, fs w !! k = None)
       (coherence_branch gpt integrity_error a rc).
Proof.
  intros Hcoh w _. unfold coherence_branch, coherence_branch_of, move_dimap, delete_dimap.
  rewrite Hcoh.
  destruct Hk as [-> | ->]; wp_steps; first [done|deleted].
Qed.

Lemma stages_removes_import :
  step (λ _, True) (λ w, fs w !! k = None) (stages gpt integrity_error a).
Proof.
  destruct (coherence a) eqn:Hcoh.
  - apply (stages_steps gpt integrity_error a
             (λ _, True) (λ _, True) (λ _, True) (λ _, True) (λ _, True)
             (λ _, True) (λ _, True) (λ _, True) (λ _, True) (λ _, True)
             (λ w, fs w !! k = None));
      first [ apply step_true
            | by apply coherence_branch_removes_import ].
  - apply (stages_steps gpt integrity_error a
             (λ _, True) (λ _, True) (λ _, True)
             (λ w, fs w !! k = None) (λ w, fs w !! k = None)
             (λ w, fs w !! k = None) (λ w, fs w !! k = None)
             (λ w, fs w !! k = None) (λ w, fs w !! k = None)
             (λ w, fs w !! k = None) (λ w, fs w !! k = None));
      first [ apply step_true
            | by apply calibrate_removes_import
            | eapply (maintains_step _ (λ _ w, fs w !! k = None));
              unfold_blocks; rewrite ?Hcoh;
              destruct Hk as [-> | ->];
              maintains_structure ltac:(idtac; stays_absent) ].
Qed.
End ImportRemoved.

(** X12: when [burst_to_ard] returns 0, the import of the master burst is
    not in the temp directory, neither its descriptor nor its payload,
    whether the call has made the import or has found it on disk and
    skipped the import stage. *)
Theorem X12_returned_zero_removes_master_import gpt code a f :
  (run gpt code a f).1 = Returned 0 →
  product_gone (master_import a) (fs (run gpt code a f).2).
Proof.
  intros Hret.
  assert (∀ k : path,
            k = dim (master_import a) ∨ k = data (master_import a) →
            fs (run gpt code a f).2 !! k = None) as Hgone.
  { intros k Hk.
    apply (run_steps gpt code a (λ _, True) (λ w, fs w !! k = None)
                     (λ w', fs w' !! k = None) f);
      [by apply stages_removes_import| |done..].
    intros w' Hw'. simpl. rewrite lookup_insert_ne; [done|].
    destruct Hk as [-> | ->]; path_neq. }
  split; apply Hgone; auto.
Qed.

Lemma X12_witness :
  product_gone (master_import Examples.plain)
    (fs (run Examples.gpt_ok 1 Examples.plain Examples.imports_on_disk).2).
Proof.
  apply (X12_returned_zero_removes_master_import Examples.gpt_ok 1
           Examples.plain Examples.imports_on_disk).
  vm_compute. reflexivity.
Defined.


(** ** What the stages read *)

Lemma made_by_app_l (t t' : list event) (i : path) :
  made_by t i → made_by (t ++ t') i.
Proof.
  intros (ev & Hev & Hrc & Hi). exists ev. split; [|done].
  apply elem_of_app. by left.
Qed.

Lemma made_by_last (t : list event) c l rc :
  rc = 0%Z →
  made_by (t ++ [{| ev_command := c; ev_logfile := l;
                    ev_return_code := rc |}])
          (dim (cmd_output c)).
Proof.
  intros ->.
  exists {| ev_command := c; ev_logfile := l; ev_return_code := 0 |}.
  split; [|done]. apply elem_of_app. right. apply list_elem_of_here.
Qed.

Lemma available_app_l a (t t' : list event) (i : path) :
  available a t i → available a (t ++ t') i.
Proof. intros [->|H]; [by left|right]. by apply made_by_app_l. Qed.

Lemma available_last a (t : list event) c l rc :
  rc = 0%Z →
  available a (t ++ [{| ev_command := c; ev_logfile := l;
                        ev_return_code := rc |}])
            (dim (cmd_output c)).
Proof. intros Hrc. right. by apply made_by_last. Qed.

Lemma available_import a (t : list event) :
  available a t (dim (master_import a)).
Proof. by left. Qed.

Lemma sourced_nil a : sourced a [].
Proof. intros t1 ev t2 Heq. by destruct t1. Qed.

Lemma sourced_snoc a (t : list event) (ev : event) :
  sourced a t →
  (∀ i, i ∈ cmd_inputs (ev_command ev) → available a t i) →
  sourced a (t ++ [ev]).
Proof.
  intros Ht Hev t1 e t2 Heq.
  destruct t2 as [|x t2 _] using rev_ind.
  - apply app_inj_tail in Heq as [-> ->]. exact Hev.
  - rewrite app_comm_cons, (assoc_L (++)) in Heq.
    apply app_inj_tail in Heq as [-> _]. by eapply Ht.
Qed.

(** What a stage reads is available. *)
Ltac is_available :=
  repeat first
    [ assumption
    | apply available_import
    | apply available_last; simpl; assumption
    | apply available_app_l ].

(** The trace built by the invocations of a block is sourced. *)
Ltac is_sourced :=
  repeat first
    [ assumption
    | apply sourced_snoc;
      [|let i := fresh in let Hi := fresh in
        simpl; intros i Hi; set_unfold in Hi;
        destruct_or?; subst; is_available] ].

Ltac is_chained :=
  unfold chained in *; simpl in *;
  repeat match goal with H : _ ∧ _ |- _ => destruct H end;
  first [ done
        | split; [is_sourced|is_available]
        | is_sourced ];
  fail.

(** Steps through a block and shows that what it invoked is sourced. *)
Ltac flows := intros ? ?; unfold_blocks; wp_steps; is_chained.

Section Chained.
Context (gpt : command → filesystem → gpt_result) (integrity_error : positive).
Context (a : burst_args).

Lemma import_master_flows :
  step_or (λ w, sourced a (trace w)) (chained a (master_import a))
          (chained a (master_import a)) (import_master gpt a).
Proof. flows. Qed.

Lemma ha_alpha_branch_flows :
  step_or (λ w, sourced a (trace w)) (chained a (master_import a))
          (chained a (master_import a))
          (ha_alpha_branch gpt integrity_error a).
Proof. flows. Qed.

Lemma calibrate_flows :
  step_or (λ w, sourced a (trace w)) (chained a (master_import a))
          (chained a (temp_product a "_cal")) (calibrate gpt a).
Proof.
  intros w Hw. unfold calibrate, delete_dimap. wp_step. wp_step.
  destruct (calibration_graph (product_type (ard a))); [|by destruct Hw].
  cbv beta. wp_steps; is_chained.
Qed.

Lemma speckle_filtering_flows rc p :
  step_or (λ w, sourced a (trace w)) (chained a p)
          (chained a (if remove_speckle (ard a)
                      then temp_product a "_speckle_import" else p))
          (speckle_filtering gpt a rc p).
Proof.
  unfold speckle_filtering. destruct (remove_speckle (ard a)); flows.
Qed.

Lemma terrain_flattening_flows rc p :
  step_or (λ w, sourced a (trace w)) (chained a p)
          (chained a (if String.eqb (product_type (ard a)) "RTC"
                      then temp_product a "_rtc" else p))
          (terrain_flattening gpt a rc p).
Proof.
  unfold terrain_flattening.
  destruct (String.eqb (product_type (ard a)) "RTC"); flows.
Qed.

Lemma linear_to_db_flows rc p :
  step_or (λ w, sourced a (trace w)) (chained a p)
          (chained a (if to_db (ard a)
                      then temp_product a "_cal_db" else p))
          (linear_to_db gpt a rc p).
Proof. unfold linear_to_db. destruct (to_db (ard a)); flows. Qed.

Lemma geocode_backscatter_flows p :
  step_or (λ w, sourced a (trace w)) (chained a p) (chained a p)
          (geocode_backscatter gpt integrity_error a p).
Proof. flows. Qed.

Lemma ls_mask_flows rc p :
  step_or (λ w, sourced a (trace w)) (chained a p) (chained a p)
          (ls_mask gpt integrity_error a rc p).
Proof. flows. Qed.

Lemma delete_dimap_flows p q :
  step_or (λ w, sourced a (trace w)) (chained a p) (chained a p)
          (delete_dimap q).
Proof. flows. Qed.

Lemma coherence_branch_flows rc p :
  step_or (λ w, sourced a (trace w)) (chained a p)
          (λ w, sourced a (trace w))
          (coherence_branch gpt integrity_error a rc).
Proof. flows. Qed.

Lemma stages_flow :
  step_or (λ w, sourced a (trace w)) (chained a (master_import a))
          (λ w, sourced a (trace w)) (stages gpt integrity_error a).
Proof.
  apply (stages_steps_or gpt integrity_error a
           (λ w, sourced a (trace w))
           (chained a (master_import a))
           (chained a (master_import a))
           (chained a (master_import a))
           (chained a (temp_product a "_cal"))
           (chained a (out_cal_speckle a))
           (chained a (out_cal_rtc a))
           (chained a (out_cal_db a))
           (chained a (out_cal_db a))
           (chained a (out_cal_db a))
           (chained a (out_cal_db a))
           (λ w, sourced a (trace w))).
  - apply import_master_flows.
  - apply ha_alpha_branch_flows.
  - apply calibrate_flows.
  - apply speckle_filtering_flows.
  - apply terrain_flattening_flows.
  - apply linear_to_db_flows.
  - apply geocode_backscatter_flows.
  - apply ls_mask_flows.
  - apply delete_dimap_flows.
  - apply coherence_branch_flows.
Qed.

Lemma run_flows f : sourced a (trace (run gpt integrity_error a f).2).
Proof.
  apply (wp_run gpt integrity_error a f (λ _ w', sourced a (trace w'))).
  unfold burst_to_ard, burst_to_ard_of. apply wp_bind.
  eapply wp_mono; [apply stages_flow|..].
  - split; [apply sourced_nil|apply available_import].
  - intros rc w' Hw'. by apply write_marker_or_purge_wp.
  - done.
  - done.
Qed.
End Chained.

(** X13: every stage reads what the call has ready for it: each
    descriptor that an invocation of a run is given as input is the one of
    the import of the master burst, made by the run or found on disk, or
    the one of the output of an earlier invocation of the same run that
    exited with 0.  This holds for every run, however it ends: no stage is
    given the output of a stage that failed. *)
Theorem X13_stages_read_outputs_of_earlier_stages gpt code a f t1 ev t2 i :
  trace (run gpt code a f).2 = t1 ++ ev :: t2 →
  i ∈ cmd_inputs (ev_command ev) →
  i = dim (master_import a) ∨
  ∃ ev', ev' ∈ t1 ∧ ev_return_code ev' = 0%Z ∧
         i = dim (cmd_output (ev_command ev')).
Proof.
  intros Heq Hi. by apply (run_flows gpt code a f t1 ev t2 Heq i Hi).
Qed.

Lemma X13_witness :
  let a := Examples.plain in
  dim (temp_product a "_cal") = dim (master_import a) ∨
  ∃ ev', ev' ∈ take 2 (trace (run Examples.gpt_ok 1 a Examples.empty_disk).2)
         ∧ ev_return_code ev' = 0%Z ∧
         dim (temp_product a "_cal") = dim (cmd_output (ev_command ev')).
Proof.
  eapply (X13_stages_read_outputs_of_earlier_stages Examples.gpt_ok 1
            Examples.plain Examples.empty_disk).
  - vm_compute. reflexivity.
  - vm_compute. apply list_elem_of_here.
Defined.

(** ** What a failed run leaves in the output directory *)













Section FailedRun.
Context (gpt : command → filesystem → gpt_result) (integrity_error : positive).
Context (a : burst_args).
Hypothesis Hdirs : dir_under (temp_dir a) (out_dir a) = false.










Lemma temp_product_in_temp_dir sfx :
  (temp_product a sfx).1 = as_dir (temp_dir a).
Proof. done. Qed.



End FailedRun.






